(** * makeHouse.js: a room with two windowed walls

    Shallow embedding of [src/makeHouse.js] and the properties of its
    wall-with-window partitioning.

    Numbers.  JavaScript numbers are modelled as exact rationals [Q]:
    a decimal literal such as [0.2] denotes the rational 1/5, [Math.min]
    and [Math.max] are the order-theoretic minimum and maximum, and
    equality of numbers is [Qeq] ([==]).  NaN and the infinities of
    IEEE-754 doubles are outside this model.  Rounding is taken up
    separately: the module [Fl] repeats the arithmetic of lines 59-79
    with a rounding function at every operation, and statements on
    which segments exist are made with room for it.

    Scene graph.  A [THREE.Mesh] over a [THREE.BoxGeometry] is a record of
    box size, material, position and the two shadow flags; a
    [THREE.Group] is a position and the list of its children in insertion
    order.  [g.add(child)] appends to that list; the group [g] of
    [makeHouse] is threaded through [buildWallWithWindow] explicitly. *)

From Stdlib Require Import QArith Qminmax Qround Lqa String List Bool ZArith.
Import ListNotations.
Open Scope Q_scope.

Set Warnings "-register-all".

(** ** Numbers *)

Module Math.
Definition min (a b : Q) : Q := Qmin a b.
Definition max (a b : Q) : Q := Qmax a b.
End Math.

(** The comparison [a > b] of the source, as a boolean. *)
Definition gt (a b : Q) : bool := negb (Qle_bool a b).

(** ** The parts of three.js the program uses *)

Record Vector3 := mkVector3 { x : Q; y : Q; z : Q }.

Record MeshStandardMaterial := mkMaterial {
  color : Z;
  roughness : Q;
  transparent : bool;
  opacity : Q
}.

(** [new THREE.BoxGeometry(sx, sy, sz)] *)
Record BoxGeometry := mkBoxGeometry { sx : Q; sy : Q; sz : Q }.

Record Mesh := mkMesh {
  geometry : BoxGeometry;
  material : MeshStandardMaterial;
  position : Vector3;
  castShadow : bool;
  receiveShadow : bool
}.

Inductive Object3D : Type :=
| MeshNode : Mesh -> Object3D
| GroupNode : Vector3 -> list Object3D -> Object3D.

Record Group := mkGroup {
  group_position : Vector3;
  children : list Object3D
}.

(** [new THREE.Mesh(geometry, material)]: at the origin, shadow flags off. *)
Definition new_Mesh (geo : BoxGeometry) (mat : MeshStandardMaterial) : Mesh :=
  mkMesh geo mat (mkVector3 0 0 0) false false.

(** [new THREE.Group()] *)
Definition new_Group : Group := mkGroup (mkVector3 0 0 0) [].

(** [m.position.set(px, py, pz)] *)
Definition position_set (m : Mesh) (px py pz : Q) : Mesh :=
  mkMesh (geometry m) (material m) (mkVector3 px py pz)
         (castShadow m) (receiveShadow m).

(** [m.position.y = py] *)
Definition position_set_y (m : Mesh) (py : Q) : Mesh :=
  mkMesh (geometry m) (material m)
         (mkVector3 (x (position m)) py (z (position m)))
         (castShadow m) (receiveShadow m).

(** [m.castShadow = b] and [m.receiveShadow = b] *)
Definition set_castShadow (m : Mesh) (b : bool) : Mesh :=
  mkMesh (geometry m) (material m) (position m) b (receiveShadow m).

Definition set_receiveShadow (m : Mesh) (b : bool) : Mesh :=
  mkMesh (geometry m) (material m) (position m) (castShadow m) b.

(** [grp.position.set(px, py, pz)] and [grp.position.copy(v)] *)
Definition group_position_set (grp : Group) (px py pz : Q) : Group :=
  mkGroup (mkVector3 px py pz) (children grp).

Definition group_position_copy (grp : Group) (v : Vector3) : Group :=
  mkGroup (mkVector3 (x v) (y v) (z v)) (children grp).

(** [grp.add(o)]: the new child goes last. *)
Definition add (grp : Group) (o : Object3D) : Group :=
  mkGroup (group_position grp) (children grp ++ [o]).

Definition as_node (grp : Group) : Object3D :=
  GroupNode (group_position grp) (children grp).

(** ** makeHouse.js *)

(** The helper [makeBox] (lines 29-34). *)
Definition makeBox (sx sy sz : Q) (mat : MeshStandardMaterial) : Mesh :=
  let m := new_Mesh (mkBoxGeometry sx sy sz) mat in
  let m := set_castShadow m true in
  let m := set_receiveShadow m true in
  m.

(** The argument object of [buildWallWithWindow] (lines 45-54). *)
Record WallParams := mkWallParams {
  axis : string;
  L : Q;
  H : Q;
  T : Q;
  center : Vector3;
  winW : Q;
  winH : Q;
  sill : Q;
  offsetAlong : Q;
  outwardNormal : Vector3
}.

(** [axis === "x"] *)
Definition is_x (axis : string) : bool := String.eqb axis "x".

(** [buildWallWithWindow] (lines 45-170), statement by statement.  The
    closure variables [wallMat], [glassMat] and the house group [g] are
    arguments; the function returns [g] after [g.add(wallGroup)]. *)
Definition buildWallWithWindow (wallMat glassMat : MeshStandardMaterial)
    (p : WallParams) (g : Group) : Group :=
  let '(mkWallParams axis L H T center winW winH sill offsetAlong outwardNormal) := p in
  let wallGroup := new_Group in
  let wallGroup := group_position_set wallGroup (x center) (y center) (z center) in
  (* clamp *)
  let winW := Math.min winW (L - 0.2) in
  let winH := Math.min winH (H - 0.2) in
  let sill := Math.max 0.0 (Math.min sill (H - winH - 0.05)) in
  let yBottom := - H / 2 in
  let yTop := H / 2 in
  let yWinBottom := yBottom + sill in
  let yWinTop := yWinBottom + winH in
  let halfL := L / 2 in
  let winCenter := offsetAlong in
  let winLeft := winCenter - winW / 2 in
  let winRight := winCenter + winW / 2 in
  (* pieces sizes *)
  let lowerH := yWinBottom - yBottom in
  let upperH := yTop - yWinTop in
  let leftW := winLeft + halfL in
  let rightW := halfL - winRight in
  (* below the window *)
  let wallGroup :=
    if gt lowerH 0.001 then
      let box := makeBox (if is_x axis then L else T) lowerH
                         (if is_x axis then T else L) wallMat in
      let box := position_set box 0 (yBottom + lowerH / 2) 0 in
      add wallGroup (MeshNode box)
    else wallGroup in
  (* above the window *)
  let wallGroup :=
    if gt upperH 0.001 then
      let box := makeBox (if is_x axis then L else T) upperH
                         (if is_x axis then T else L) wallMat in
      let box := position_set box 0 (yWinTop + upperH / 2 - y center) 0 in
      let box := position_set_y box (yWinTop + upperH / 2) in
      add wallGroup (MeshNode box)
    else wallGroup in
  (* left of the window *)
  let wallGroup :=
    if gt leftW 0.001 then
      let box := makeBox (if is_x axis then leftW else T) winH
                         (if is_x axis then T else leftW) wallMat in
      let box :=
        if is_x axis
        then position_set box (- halfL + leftW / 2) (yWinBottom + winH / 2) 0
        else position_set box 0 (yWinBottom + winH / 2) (- halfL + leftW / 2) in
      add wallGroup (MeshNode box)
    else wallGroup in
  (* right of the window *)
  let wallGroup :=
    if gt rightW 0.001 then
      let box := makeBox (if is_x axis then rightW else T) winH
                         (if is_x axis then T else rightW) wallMat in
      let box :=
        if is_x axis
        then position_set box (halfL - rightW / 2) (yWinBottom + winH / 2) 0
        else position_set box 0 (yWinBottom + winH / 2) (halfL - rightW / 2) in
      add wallGroup (MeshNode box)
    else wallGroup in
  (* glass *)
  let glassT := 0.02 in
  let glass := makeBox (if is_x axis then winW else glassT) winH
                       (if is_x axis then glassT else winW) glassMat in
  let glass :=
    if is_x axis
    then position_set glass winCenter (yWinBottom + winH / 2)
                      (z outwardNormal * (T / 2 - glassT / 2))
    else position_set glass (x outwardNormal * (T / 2 - glassT / 2))
                      (yWinBottom + winH / 2) winCenter in
  let glass := set_castShadow glass false in
  let wallGroup := add wallGroup (MeshNode glass) in
  let wallGroup := group_position_set wallGroup 0 0 0 in
  let wallGroup :=
    group_position_copy wallGroup (mkVector3 (x center) (y center) (z center)) in
  add g (as_node wallGroup).

(** A window of the configuration object: [{ w, h, sill, center }]. *)
Module Win.
Record t := mk { w : Q; h : Q; sill : Q; center : Q }.
End Win.

(** The configuration of [makeHouse] (lines 11-25), every field present. *)
Record Config := mkConfig {
  width : Q;
  depth : Q;
  height : Q;
  wallT : Q;
  floorT : Q;
  winEast : Win.t;
  winSouth : Win.t;
  wallMat : MeshStandardMaterial;
  floorMat : MeshStandardMaterial;
  ceilMat : MeshStandardMaterial;
  glassMat : MeshStandardMaterial
}.

(** The defaults of the parameter list: [makeHouse()] is
    [makeHouse defaults]. *)
Definition defaults : Config := {|
  width := 4;
  depth := 6;
  height := 3.0;
  wallT := 0.15;
  floorT := 0.12;
  winEast := Win.mk 2.4 1.2 0.9 0.0;
  winSouth := Win.mk 3.0 1.4 0.7 0.0;
  wallMat := mkMaterial 0xe6dfd3 0.95 false 1;
  floorMat := mkMaterial 0xc8b08a 0.9 false 1;
  ceilMat := mkMaterial 0xf2f2f2 1.0 false 1;
  glassMat := mkMaterial 0x99bbcc 0.15 true 0.28
|}.

(** [makeHouse] (lines 11-230). *)
Definition makeHouse (c : Config) : Group :=
  let g := new_Group in
  (* floor / ceiling *)
  let floor := makeBox (width c - wallT c * 2) (floorT c)
                       (depth c - wallT c * 2) (floorMat c) in
  let floor := position_set floor 0 (floorT c / 2) 0 in
  let g := add g (MeshNode floor) in
  let ceiling := makeBox (width c) 0.08 (depth c) (ceilMat c) in
  let ceiling := position_set ceiling 0 (height c + 0.04) 0 in
  let ceiling := set_castShadow ceiling true in
  let ceiling := set_receiveShadow ceiling true in
  let g := add g (MeshNode ceiling) in
  let wallY := height c / 2 in
  (* walls without windows: west, then north *)
  let g :=
    let w := makeBox (wallT c) (height c) (depth c) (wallMat c) in
    let w := position_set w (- width c / 2 + wallT c / 2) wallY 0 in
    add g (MeshNode w) in
  let g :=
    let w := makeBox (width c) (height c) (wallT c) (wallMat c) in
    let w := position_set w 0 wallY (- depth c / 2 + wallT c / 2) in
    add g (MeshNode w) in
  (* walls with windows: east, then south *)
  let g :=
    buildWallWithWindow (wallMat c) (glassMat c) {|
      axis := "z";
      L := depth c;
      H := height c;
      T := wallT c;
      center := mkVector3 (width c / 2 - wallT c / 2) wallY 0;
      winW := Win.w (winEast c);
      winH := Win.h (winEast c);
      sill := Win.sill (winEast c);
      offsetAlong := Win.center (winEast c);
      outwardNormal := mkVector3 1 0 0
    |} g in
  let g :=
    buildWallWithWindow (wallMat c) (glassMat c) {|
      axis := "x";
      L := width c;
      H := height c;
      T := wallT c;
      center := mkVector3 0 wallY (depth c / 2 - wallT c / 2);
      winW := Win.w (winSouth c);
      winH := Win.h (winSouth c);
      sill := Win.sill (winSouth c);
      offsetAlong := Win.center (winSouth c);
      outwardNormal := mkVector3 0 0 1
    |} g in
  g.

(** ** The locals of [buildWallWithWindow], by name

    The same expressions as in the body above, one definition per local
    of the source, so that statements can name them.
    [buildWallWithWindow_unfold] below shows that the body computes
    exactly these. *)

Section Locals.
Variable p : WallParams.

(* lines 59-61: the values of winW, winH, sill after the clamp *)
Definition winW' : Q := Math.min (winW p) (L p - 0.2).
Definition winH' : Q := Math.min (winH p) (H p - 0.2).
Definition sill' : Q := Math.max 0.0 (Math.min (sill p) (H p - winH' - 0.05)).

(* lines 63-73 *)
Definition yBottom : Q := - H p / 2.
Definition yTop : Q := H p / 2.
Definition yWinBottom : Q := yBottom + sill'.
Definition yWinTop : Q := yWinBottom + winH'.
Definition halfL : Q := L p / 2.
Definition winCenter : Q := offsetAlong p.
Definition winLeft : Q := winCenter - winW' / 2.
Definition winRight : Q := winCenter + winW' / 2.

(* lines 76-79 *)
Definition lowerH : Q := yWinBottom - yBottom.
Definition upperH : Q := yTop - yWinTop.
Definition leftW : Q := winLeft + halfL.
Definition rightW : Q := halfL - winRight.

Definition glassT : Q := 0.02.
End Locals.

(** The omission threshold of the four [if] guards. *)
Definition epsilon : Q := 0.001.

(** The four structural segments. *)
Inductive Side : Type := Lower | Upper | Left | Right.

Definition sides : list Side := [Lower; Upper; Left; Right].

(** The extent each guard tests (lines 82, 94, 108, 124). *)
Definition extent (s : Side) (p : WallParams) : Q :=
  match s with
  | Lower => lowerH p
  | Upper => upperH p
  | Left => leftW p
  | Right => rightW p
  end.

Definition emitted (s : Side) (p : WallParams) : bool :=
  gt (extent s p) 0.001.

Section Pieces.
Variables wallMat glassMat : MeshStandardMaterial.
Variable p : WallParams.

(** The box each guarded block builds and positions. *)
Definition box_of (s : Side) : Mesh :=
    match s with
    | Lower =>
        position_set
          (makeBox (if is_x (axis p) then L p else T p) (lowerH p)
                   (if is_x (axis p) then T p else L p) wallMat)
          0 (yBottom p + lowerH p / 2) 0
    | Upper =>
        position_set_y
          (position_set
             (makeBox (if is_x (axis p) then L p else T p) (upperH p)
                      (if is_x (axis p) then T p else L p) wallMat)
             0 (yWinTop p + upperH p / 2 - y (center p)) 0)
          (yWinTop p + upperH p / 2)
    | Left =>
        let box := makeBox (if is_x (axis p) then leftW p else T p) (winH' p)
                           (if is_x (axis p) then T p else leftW p) wallMat in
        if is_x (axis p)
        then position_set box (- halfL p + leftW p / 2) (yWinBottom p + winH' p / 2) 0
        else position_set box 0 (yWinBottom p + winH' p / 2) (- halfL p + leftW p / 2)
    | Right =>
        let box := makeBox (if is_x (axis p) then rightW p else T p) (winH' p)
                           (if is_x (axis p) then T p else rightW p) wallMat in
        if is_x (axis p)
        then position_set box (halfL p - rightW p / 2) (yWinBottom p + winH' p / 2) 0
        else position_set box 0 (yWinBottom p + winH' p / 2) (halfL p - rightW p / 2)
    end.

(** What one guarded block adds to the wall group. *)
Definition piece (s : Side) : list Mesh :=
    if emitted s p then [box_of s] else [].

(** The structural children of the wall group, in insertion order. *)
Definition segments : list Mesh := flat_map piece sides.

(** The glass pane (lines 141-164). *)
Definition glass : Mesh :=
    let glass := makeBox (if is_x (axis p) then winW' p else glassT) (winH' p)
                         (if is_x (axis p) then glassT else winW' p) glassMat in
    let glass :=
      if is_x (axis p)
      then position_set glass (winCenter p) (yWinBottom p + winH' p / 2)
                        (z (outwardNormal p) * (T p / 2 - glassT / 2))
      else position_set glass (x (outwardNormal p) * (T p / 2 - glassT / 2))
                        (yWinBottom p + winH' p / 2) (winCenter p) in
    set_castShadow glass false.

(** The wall group as it is added to the house. *)
Definition wallGroup : Group :=
    mkGroup (center p) (map MeshNode (segments ++ [glass])).
End Pieces.

(** The six children of the house, by name. *)
Section HouseParts.
Variable c : Config.

Definition wallY : Q := height c / 2.

Definition floorMesh : Mesh :=
    position_set
      (makeBox (width c - wallT c * 2) (floorT c) (depth c - wallT c * 2)
               (floorMat c))
      0 (floorT c / 2) 0.

Definition ceilingMesh : Mesh :=
    set_receiveShadow
      (set_castShadow
         (position_set (makeBox (width c) 0.08 (depth c) (ceilMat c))
                       0 (height c + 0.04) 0)
         true)
      true.

Definition westWall : Mesh :=
    position_set (makeBox (wallT c) (height c) (depth c) (wallMat c))
                 (- width c / 2 + wallT c / 2) wallY 0.

Definition northWall : Mesh :=
    position_set (makeBox (width c) (height c) (wallT c) (wallMat c))
                 0 wallY (- depth c / 2 + wallT c / 2).

Definition eastParams : WallParams := {|
    axis := "z";
    L := depth c;
    H := height c;
    T := wallT c;
    center := mkVector3 (width c / 2 - wallT c / 2) wallY 0;
    winW := Win.w (winEast c);
    winH := Win.h (winEast c);
    sill := Win.sill (winEast c);
    offsetAlong := Win.center (winEast c);
    outwardNormal := mkVector3 1 0 0
  |}.

Definition southParams : WallParams := {|
    axis := "x";
    L := width c;
    H := height c;
    T := wallT c;
    center := mkVector3 0 wallY (depth c / 2 - wallT c / 2);
    winW := Win.w (winSouth c);
    winH := Win.h (winSouth c);
    sill := Win.sill (winSouth c);
    offsetAlong := Win.center (winSouth c);
    outwardNormal := mkVector3 0 0 1
  |}.
End HouseParts.

(** ** The clamp as a step on the parameters

    Lines 59-61 reassign three of the destructured parameters and leave
    the others alone. *)
Definition clamp (p : WallParams) : WallParams := {|
  axis := axis p;
  L := L p;
  H := H p;
  T := T p;
  center := center p;
  winW := winW' p;
  winH := winH' p;
  sill := sill' p;
  offsetAlong := offsetAlong p;
  outwardNormal := outwardNormal p
|}.

(** [p] with another along-axis offset. *)
Definition with_offset (p : WallParams) (off : Q) : WallParams := {|
  axis := axis p;
  L := L p;
  H := H p;
  T := T p;
  center := center p;
  winW := winW p;
  winH := winH p;
  sill := sill p;
  offsetAlong := off;
  outwardNormal := outwardNormal p
|}.

(** The window part of two parameter objects is the same. *)
Definition same_window (p q : WallParams) : Prop :=
  winW p == winW q /\ winH p == winH q /\ sill p == sill q /\
  offsetAlong p == offsetAlong q.

(** Nothing is left for the clamp to do. *)
Definition within_limits (p : WallParams) : Prop :=
  winW p <= L p - 0.2 /\ winH p <= H p - 0.2 /\
  0 <= sill p /\ sill p <= H p - winH p - 0.05.

(** The clamp in the words of the specification: a minimum with the
    margin, and a three-way clamp of the sill between 0 and the gap
    under the ceiling line. *)
Module Spec.
Definition margin : Q := 0.2.
Definition smallGap : Q := 0.05.

Definition smaller (a b : Q) : Q := if Qle_bool a b then a else b.

Definition clamp_between (v lo hi : Q) : Q :=
    if Qle_bool v lo then lo
    else if Qle_bool hi v then hi
    else v.

Definition windowWidth' (p : WallParams) : Q :=
    smaller (winW p) (L p - margin).
Definition windowHeight' (p : WallParams) : Q :=
    smaller (winH p) (H p - margin).
Definition sillHeight' (p : WallParams) : Q :=
    clamp_between (sill p) 0 (H p - windowHeight' p - smallGap).
End Spec.

(** ** The wall face and the rectangles on it

    A box of the wall group is seen on the wall's face as a rectangle:
    its span along the wall's long axis (x for [axis = "x"], z
    otherwise) and its vertical span, both in wall-local coordinates. *)

Record Rect := mkRect { along0 : Q; along1 : Q; y0 : Q; y1 : Q }.

Definition project (ax : string) (m : Mesh) : Rect :=
  let a := if is_x ax then x (position m) else z (position m) in
  let sa := if is_x ax then sx (geometry m) else sz (geometry m) in
  mkRect (a - sa / 2) (a + sa / 2)
         (y (position m) - sy (geometry m) / 2)
         (y (position m) + sy (geometry m) / 2).

Definition area (r : Rect) : Q := (along1 r - along0 r) * (y1 r - y0 r).



(** The aperture of the clamped window. *)
Definition aperture (p : WallParams) : Rect :=
  mkRect (winLeft p) (winRight p) (yWinBottom p) (yWinTop p).

(** The rectangle each structural segment is meant to fill. *)
Definition side_rect (s : Side) (p : WallParams) : Rect :=
  match s with
  | Lower => mkRect (- halfL p) (halfL p) (yBottom p) (yWinBottom p)
  | Upper => mkRect (- halfL p) (halfL p) (yWinTop p) (yTop p)
  | Left => mkRect (- halfL p) (winLeft p) (yWinBottom p) (yWinTop p)
  | Right => mkRect (winRight p) (halfL p) (yWinBottom p) (yWinTop p)
  end.

Definition Rect_eq (r r' : Rect) : Prop :=
  along0 r == along0 r' /\ along1 r == along1 r' /\
  y0 r == y0 r' /\ y1 r == y1 r'.













(** A wall whose window is pushed past the wall's end: length 4, window
    2 wide, centre 4 from the wall centre. *)
Definition offWall : WallParams := {|
  axis := "x";
  L := 4;
  H := 3;
  T := 0.15;
  center := mkVector3 0 1.5 2.925;
  winW := 2;
  winH := 1.2;
  sill := 0.9;
  offsetAlong := 4;
  outwardNormal := mkVector3 0 0 1
|}.

(** The dimension of a segment's box that its guard tests: the height
    for Lower and Upper, the size along the wall for Left and Right. *)
Definition guarded_size (ax : string) (s : Side) (m : Mesh) : Q :=
  match s with
  | Lower | Upper => sy (geometry m)
  | Left | Right => if is_x ax then sx (geometry m) else sz (geometry m)
  end.

(** A box with three positive dimensions. *)
Definition positive_size (m : Mesh) : Prop :=
  0 < sx (geometry m) /\ 0 < sy (geometry m) /\ 0 < sz (geometry m).

(** A wall lower than the 0.2 margin of the height clamp. *)
Definition lowWall : WallParams := {|
  axis := "x";
  L := 4;
  H := 0.1;
  T := 0.15;
  center := mkVector3 0 0.05 2.925;
  winW := 2.4;
  winH := 1.2;
  sill := 0.9;
  offsetAlong := 0;
  outwardNormal := mkVector3 0 0 1
|}.

(** A centred window exactly [L - 0.2] wide. *)
Definition fullWidthWall : WallParams := {|
  axis := "x";
  L := 4;
  H := 3;
  T := 0.15;
  center := mkVector3 0 1.5 2.925;
  winW := 3.8;
  winH := 1.2;
  sill := 0.9;
  offsetAlong := 0;
  outwardNormal := mkVector3 0 0 1
|}.

(** A centred, narrow window that starts at the floor. *)
Definition floorWindowWall : WallParams := {|
  axis := "x";
  L := 4;
  H := 3;
  T := 0.15;
  center := mkVector3 0 1.5 2.925;
  winW := 2;
  winH := 1.2;
  sill := 0;
  offsetAlong := 0;
  outwardNormal := mkVector3 0 0 1
|}.

(** The two halves of the omission-threshold property as the
    specification states them. *)
Definition no_side_segments (p : WallParams) : Prop :=
  forall s, s = Left \/ s = Right ->
    emitted s p = false \/ extent s p <= epsilon.

Definition all_four_segments (p : WallParams) : Prop :=
  forall s, emitted s p = true.

(** The faces of a box in its parent's coordinates. *)
Definition lo_x (m : Mesh) : Q := x (position m) - sx (geometry m) / 2.
Definition hi_x (m : Mesh) : Q := x (position m) + sx (geometry m) / 2.
Definition bottom_face (m : Mesh) : Q := y (position m) - sy (geometry m) / 2.
Definition top_face (m : Mesh) : Q := y (position m) + sy (geometry m) / 2.
Definition lo_z (m : Mesh) : Q := z (position m) - sz (geometry m) / 2.
Definition hi_z (m : Mesh) : Q := z (position m) + sz (geometry m) / 2.

(** The size of a box along the wall's long axis. *)
Definition along_size (ax : string) (m : Mesh) : Q :=
  if is_x ax then sx (geometry m) else sz (geometry m).

(** The coordinate of a box along the wall's long axis. *)
Definition along (ax : string) (v : Vector3) : Q :=
  if is_x ax then x v else z v.

(** The coordinate of a box across the wall, along its thickness. *)
Definition across (ax : string) (v : Vector3) : Q :=
  if is_x ax then z v else x v.

(** A mesh takes part in shadowing like an opaque solid. *)
Definition shadows_fully (m : Mesh) : Prop :=
  castShadow m = true /\ receiveShadow m = true.


(** ** Variations of a wall's parameters *)

(** [p] with another wall centre. *)
Definition with_center (p : WallParams) (c : Vector3) : WallParams := {|
  axis := axis p;
  L := L p;
  H := H p;
  T := T p;
  center := c;
  winW := winW p;
  winH := winH p;
  sill := sill p;
  offsetAlong := offsetAlong p;
  outwardNormal := outwardNormal p
|}.

(** [p] with another axis string. *)
Definition with_axis (p : WallParams) (a : string) : WallParams := {|
  axis := a;
  L := L p;
  H := H p;
  T := T p;
  center := center p;
  winW := winW p;
  winH := winH p;
  sill := sill p;
  offsetAlong := offsetAlong p;
  outwardNormal := outwardNormal p
|}.

(** [p] with the window moved to the other side of the wall centre. *)
Definition mirrored (p : WallParams) : WallParams :=
  with_offset p (- offsetAlong p).

(** The exchange of the x and z coordinates, on vectors, boxes and
    scene nodes. *)
Definition transpose (v : Vector3) : Vector3 := mkVector3 (z v) (y v) (x v).

Definition transpose_mesh (m : Mesh) : Mesh :=
  mkMesh (mkBoxGeometry (sz (geometry m)) (sy (geometry m)) (sx (geometry m)))
         (material m) (transpose (position m))
         (castShadow m) (receiveShadow m).

Fixpoint transpose_node (o : Object3D) : Object3D :=
  match o with
  | MeshNode m => MeshNode (transpose_mesh m)
  | GroupNode v kids => GroupNode (transpose v) (map transpose_node kids)
  end.

(** The same wall laid along the other horizontal axis. *)
Definition swap_axis (p : WallParams) : WallParams := {|
  axis := if is_x (axis p) then "z" else "x";
  L := L p;
  H := H p;
  T := T p;
  center := transpose (center p);
  winW := winW p;
  winH := winH p;
  sill := sill p;
  offsetAlong := offsetAlong p;
  outwardNormal := transpose (outwardNormal p)
|}.

(** The same house with x and z exchanged: width for depth, the east
    window for the south window. *)
Definition swap_plan (c : Config) : Config := {|
  width := depth c;
  depth := width c;
  height := height c;
  wallT := wallT c;
  floorT := floorT c;
  winEast := winSouth c;
  winSouth := winEast c;
  wallMat := wallMat c;
  floorMat := floorMat c;
  ceilMat := ceilMat c;
  glassMat := glassMat c
|}.



(** A point lies in the interior of a box. *)
Definition strictly_in_box (m : Mesh) (a b c : Q) : Prop :=
  lo_x m < a /\ a < hi_x m /\
  bottom_face m < b /\ b < top_face m /\
  lo_z m < c /\ c < hi_z m.

(** ** Walls of ordinary size

    The source computes in binary64.  Up to a magnitude of a few
    millions two neighbouring doubles are less than 2^-30 apart, so that
    the margins of the clamps (0.2 and 0.05) and the omission threshold
    (0.001) are far above the rounding of the few operations of lines
    59-79; beyond 10^15 or so the rounding absorbs them.  Statements on
    which boxes exist are made for lengths within a million of zero. *)
Definition ordinary (v : Q) : Prop := - 1000000 <= v /\ v <= 1000000.

(** A wall, and a house plan, of ordinary size: lengths and offsets
    within a million of zero, requested window sizes not below minus a
    million (they are clamped from above only). *)
Definition ordinary_wall (p : WallParams) : Prop :=
  ordinary (L p) /\ ordinary (H p) /\
  - 1000000 <= winW p /\ - 1000000 <= winH p /\
  ordinary (offsetAlong p).



(** ** Lines 59-79 with rounded arithmetic

    The source computes in binary64: every subtraction, addition and
    division of lines 59-79 is rounded to a double, and so is every
    decimal literal that is not a double ([0.2], [0.05], [0.001]);
    [Math.min], [Math.max], the comparison and the integer literals are
    exact.  The definitions below are the locals of
    [buildWallWithWindow] once more, with a rounding function [rnd]
    applied wherever the source rounds.  With the identity for [rnd]
    they are the locals above.

    Binary64 rounding to nearest is one such function on the range used
    here: below 4194304 = 2^22 in magnitude two neighbouring doubles are
    at most 2^-31 apart, so a result is at most 2^-32 from the exact
    value; [rounds_closely] says just this. *)

Definition rounds_closely (rnd : Q -> Q) : Prop :=
  forall v, - 4194304 <= v -> v <= 4194304 ->
    - (1 # 4294967296) <= rnd v - v /\ rnd v - v <= 1 # 4294967296.

Module Fl.
Section Rounded.
Variable rnd : Q -> Q.

(* lines 59-61 *)
Definition winW' (p : WallParams) : Q :=
  Math.min (winW p) (rnd (L p - rnd 0.2)).
Definition winH' (p : WallParams) : Q :=
  Math.min (winH p) (rnd (H p - rnd 0.2)).
Definition sill' (p : WallParams) : Q :=
  Math.max 0.0 (Math.min (sill p) (rnd (rnd (H p - winH' p) - rnd 0.05))).

(* lines 63-73 *)
Definition yBottom (p : WallParams) : Q := rnd (- H p / 2).
Definition yTop (p : WallParams) : Q := rnd (H p / 2).
Definition yWinBottom (p : WallParams) : Q := rnd (yBottom p + sill' p).
Definition yWinTop (p : WallParams) : Q := rnd (yWinBottom p + winH' p).
Definition halfL (p : WallParams) : Q := rnd (L p / 2).
Definition winCenter (p : WallParams) : Q := offsetAlong p.
Definition winLeft (p : WallParams) : Q :=
  rnd (winCenter p - rnd (winW' p / 2)).
Definition winRight (p : WallParams) : Q :=
  rnd (winCenter p + rnd (winW' p / 2)).

(* lines 76-79 *)
Definition lowerH (p : WallParams) : Q := rnd (yWinBottom p - yBottom p).
Definition upperH (p : WallParams) : Q := rnd (yTop p - yWinTop p).
Definition leftW (p : WallParams) : Q := rnd (winLeft p + halfL p).
Definition rightW (p : WallParams) : Q := rnd (halfL p - winRight p).

Definition extent (s : Side) (p : WallParams) : Q :=
  match s with
  | Lower => lowerH p
  | Upper => upperH p
  | Left => leftW p
  | Right => rightW p
  end.

(* the guards of lines 82, 94, 108, 124 *)
Definition emitted (s : Side) (p : WallParams) : bool :=
  gt (extent s p) (rnd 0.001).

End Rounded.
End Fl.

(** Rounding to the nearest multiple of 2^-32, ties upwards: a rounding
    function that is not the identity and rounds closely. *)
Definition to_grid (v : Q) : Q :=
  Qfloor (v * 4294967296 + (1 # 2)) # 4294967296.

(** * Properties *)

(** ** The body and its named parts agree *)

Lemma gt_true_iff (a b : Q) : gt a b = true <-> b < a.
Proof.
  unfold gt. rewrite negb_true_iff.
  destruct (Qle_bool a b) eqn:E.
  - apply Qle_bool_iff in E. split; [discriminate | intro; lra].
  - split; [intros _ | reflexivity].
    destruct (Qlt_le_dec b a) as [Hlt | Hle]; [exact Hlt |].
    apply Qle_bool_iff in Hle. congruence.
Qed.

Lemma gt_false_iff (a b : Q) : gt a b = false <-> a <= b.
Proof.
  unfold gt. rewrite negb_false_iff. apply Qle_bool_iff.
Qed.

Lemma buildWallWithWindow_unfold (wm gm : MeshStandardMaterial)
    (p : WallParams) (g : Group) :
  buildWallWithWindow wm gm p g = add g (as_node (wallGroup wm gm p)).
Proof.
  destruct p as [ax l hh t [cx cy cz] ww wh s off n].
  unfold buildWallWithWindow, wallGroup, segments, sides, piece, emitted,
    extent, flat_map.
  cbn [axis L H T center winW winH sill offsetAlong outwardNormal x y z].
  unfold lowerH, upperH, leftW, rightW, yWinTop, yWinBottom, yBottom, yTop,
    halfL, winLeft, winRight, winCenter, sill', winH', winW'.
  cbn [axis L H T center winW winH sill offsetAlong outwardNormal x y z].
  repeat match goal with
         | |- context [gt ?a ?b] => destruct (gt a b)
         end; reflexivity.
Qed.

Lemma makeHouse_unfold (c : Config) :
  makeHouse c =
  mkGroup (mkVector3 0 0 0)
    [ MeshNode (floorMesh c); MeshNode (ceilingMesh c);
      MeshNode (westWall c); MeshNode (northWall c);
      as_node (wallGroup (wallMat c) (glassMat c) (eastParams c));
      as_node (wallGroup (wallMat c) (glassMat c) (southParams c)) ].
Proof.
  unfold makeHouse.
  rewrite !buildWallWithWindow_unfold.
  reflexivity.
Qed.

(** ** The scenarios of the specification, evaluated *)

(** East wall of the default house: [L = 6], [H = 3], window 2.4 by 1.2
    with its sill at 0.9, centred. *)
Example east_default_extents :
  extent Lower (eastParams defaults) == 0.9 /\
  extent Upper (eastParams defaults) == 0.9 /\
  extent Left (eastParams defaults) == 1.8 /\
  extent Right (eastParams defaults) == 1.8 /\
  geometry (glass (glassMat defaults) (eastParams defaults))
    = mkBoxGeometry 0.02 (winH' (eastParams defaults))
                    (winW' (eastParams defaults)) /\
  winW' (eastParams defaults) == 2.4 /\ winH' (eastParams defaults) == 1.2 /\
  List.length (children (makeHouse defaults)) = 6%nat.
Proof. repeat split. Qed.

(** An oversized window: the width 10 on a wall 4 long clamps to 3.8 and
    leaves 0.1 on either side. *)
Example oversized_window_extents :
  let p := mkWallParams "x" 4 3 0.15 (mkVector3 0 1.5 2.925)
                        10 1.2 0.9 0 (mkVector3 0 0 1) in
  winW' p == 3.8 /\ extent Left p == 0.1 /\ extent Right p == 0.1 /\
  emitted Left p = true /\ emitted Right p = true.
Proof. repeat split. Qed.

(** A sill too high for the window: [H = 3], height 2.0, sill 2.0 gives
    a sill of 0.95. *)
Example sill_overflow :
  let p := mkWallParams "x" 4 3 0.15 (mkVector3 0 1.5 2.925)
                        2.4 2.0 2.0 0 (mkVector3 0 0 1) in
  sill' p == 0.95.
Proof. reflexivity. Qed.

(** ** Facts about the clamp (lines 59-61) *)

Lemma winW'_le (p : WallParams) : winW' p <= winW p /\ winW' p <= L p - 0.2.
Proof.
  unfold winW', Math.min. split; [apply Q.le_min_l | apply Q.le_min_r].
Qed.

Lemma winW'_cases (p : WallParams) :
  winW' p == winW p \/ winW' p == L p - 0.2.
Proof.
  unfold winW', Math.min.
  destruct (Q.min_spec (winW p) (L p - 0.2)) as [[_ E] | [_ E]]; auto.
Qed.

Lemma winH'_le (p : WallParams) : winH' p <= winH p /\ winH' p <= H p - 0.2.
Proof.
  unfold winH', Math.min. split; [apply Q.le_min_l | apply Q.le_min_r].
Qed.

Lemma winH'_cases (p : WallParams) :
  winH' p == winH p \/ winH' p == H p - 0.2.
Proof.
  unfold winH', Math.min.
  destruct (Q.min_spec (winH p) (H p - 0.2)) as [[_ E] | [_ E]]; auto.
Qed.

(** The upper bound of the sill clamp is never negative, because the
    clamped height leaves 0.2 of the wall free. *)
Lemma sill_bound_pos (p : WallParams) : 0.15 <= H p - winH' p - 0.05.
Proof.
  pose proof (winH'_le p) as [_ Hh]. lra.
Qed.

Lemma sill'_range (p : WallParams) :
  0 <= sill' p /\ sill' p <= H p - winH' p - 0.05.
Proof.
  pose proof (sill_bound_pos p) as Hb.
  unfold sill', Math.max, Math.min in *.
  set (b := H p - winH' p - 0.05) in *.
  destruct (Q.min_spec (sill p) b) as [[? E1] | [? E1]];
    destruct (Q.max_spec 0.0 (Qmin (sill p) b)) as [[? E2] | [? E2]];
    rewrite E2; try rewrite E1; split; lra.
Qed.

Lemma sill'_cases (p : WallParams) :
  (sill p <= 0 /\ sill' p == 0) \/
  (0 <= sill p <= H p - winH' p - 0.05 /\ sill' p == sill p) \/
  (H p - winH' p - 0.05 <= sill p /\ sill' p == H p - winH' p - 0.05).
Proof.
  pose proof (sill_bound_pos p) as Hb.
  unfold sill', Math.max, Math.min in *.
  set (b := H p - winH' p - 0.05) in *.
  destruct (Q.min_spec (sill p) b) as [[? E1] | [? E1]];
    destruct (Q.max_spec 0.0 (Qmin (sill p) b)) as [[? E2] | [? E2]];
    rewrite E2; try rewrite E1.
  - right; left. split; [lra | reflexivity].
  - left. split; [lra | reflexivity].
  - right; right. split; [lra | reflexivity].
  - lra.
Qed.

Lemma Qle_bool_false (a b : Q) : Qle_bool a b = false <-> b < a.
Proof.
  rewrite <- gt_true_iff. unfold gt. rewrite negb_true_iff. reflexivity.
Qed.

Lemma smaller_min (a b : Q) : Spec.smaller a b == Qmin a b.
Proof.
  unfold Spec.smaller.
  destruct (Qle_bool a b) eqn:E.
  - apply Qle_bool_iff in E. symmetry. apply Q.min_l. exact E.
  - apply Qle_bool_false in E. symmetry. apply Q.min_r. lra.
Qed.

(** ** Theorems about the clamp *)

(** C2.  For every input the clamped width is the smaller of the
    requested width and [L - 0.2], the clamped height the smaller of the
    requested height and [H - 0.2], and the clamped sill is
    [max(0, min(sill, H - height' - 0.05))], which is the requested sill
    brought between 0 and [H - height' - 0.05]; the function raises
    nothing: for every input it returns the house group with exactly one
    more child, the wall group, whose last child is the pane sized and
    placed by the clamped values. *)
Theorem C2_clamp_formulas (wm gm : MeshStandardMaterial) (p : WallParams)
    (g : Group) :
  winW (clamp p) == Spec.windowWidth' p /\
  winH (clamp p) == Spec.windowHeight' p /\
  sill (clamp p) == Qmax 0 (Qmin (sill p) (H p - winH (clamp p) - 0.05)) /\
  sill (clamp p) == Spec.sillHeight' p /\
  exists segs,
    buildWallWithWindow wm gm p g =
    add g (GroupNode (center p) (map MeshNode (segs ++ [glass gm p]))) /\
    along_size (axis p) (glass gm p) = winW (clamp p) /\
    sy (geometry (glass gm p)) = winH (clamp p) /\
    y (position (glass gm p)) = - H p / 2 + sill (clamp p) + winH (clamp p) / 2.
Proof.
  assert (EW : winW' p == Spec.windowWidth' p).
  { unfold Spec.windowWidth', Spec.margin. rewrite smaller_min. reflexivity. }
  assert (EH : winH' p == Spec.windowHeight' p).
  { unfold Spec.windowHeight', Spec.margin. rewrite smaller_min. reflexivity. }
  cbn [clamp winW winH sill].
  split; [exact EW |]. split; [exact EH |]. split; [| split].
  - unfold sill', Math.max, Math.min.
    apply Q.max_compat; reflexivity.
  - unfold Spec.sillHeight', Spec.clamp_between, Spec.smallGap.
    pose proof (sill_bound_pos p) as Hb.
    destruct (sill'_cases p) as [[Hs E] | [[Hs E] | [Hs E]]]; rewrite E.
    + assert (Hq : Qle_bool (sill p) 0 = true) by (apply Qle_bool_iff; lra).
      rewrite Hq. reflexivity.
    + destruct (Qle_bool (sill p) 0) eqn:E0.
      * apply Qle_bool_iff in E0. lra.
      * destruct (Qle_bool (H p - Spec.windowHeight' p - 0.05) (sill p)) eqn:E1.
        -- apply Qle_bool_iff in E1. lra.
        -- reflexivity.
    + destruct (Qle_bool (sill p) 0) eqn:E0.
      * apply Qle_bool_iff in E0. lra.
      * destruct (Qle_bool (H p - Spec.windowHeight' p - 0.05) (sill p)) eqn:E1.
        -- lra.
        -- apply Qle_bool_false in E1. lra.
  - exists (segments wm p). split; [| split; [| split]].
    + rewrite buildWallWithWindow_unfold. reflexivity.
    + unfold glass, along_size. destruct (is_x (axis p)); reflexivity.
    + unfold glass. destruct (is_x (axis p)); reflexivity.
    + unfold glass. destruct (is_x (axis p)); reflexivity.
Qed.


(** C8.  Clamping twice is clamping once, and a window that is already
    within the limits of the clamp ([winW <= L - 0.2], [winH <= H - 0.2],
    [0 <= sill <= H - winH - 0.05]) is left as it is. *)
Theorem C8_clamp_idempotent :
  (forall p, same_window (clamp (clamp p)) (clamp p)) /\
  (forall p, within_limits p -> same_window (clamp p) p).
Proof.
  assert (Hnoop : forall p, within_limits p -> same_window (clamp p) p).
  { intros p (Hw & Hh & Hs0 & Hs1).
    unfold same_window. cbn [clamp winW winH sill offsetAlong].
    assert (EH : winH' p == winH p).
    { destruct (winH'_cases p) as [E | E]; [exact E |].
      pose proof (winH'_le p) as [? _]. lra. }
    split; [| split; [| split]].
    - destruct (winW'_cases p) as [E | E]; [exact E |].
      pose proof (winW'_le p) as [? _]. lra.
    - exact EH.
    - destruct (sill'_cases p) as [[? E] | [[? E] | [? E]]]; lra.
    - reflexivity. }
  split; [| exact Hnoop].
  intro p. apply Hnoop.
  unfold within_limits. cbn [clamp winW winH sill L H].
  pose proof (winW'_le p) as [_ ?].
  pose proof (winH'_le p) as [_ ?].
  pose proof (sill'_range p) as [? ?].
  split; [| split; [| split]]; assumption.
Qed.


Lemma C8_clamp_idempotent_witness :
  within_limits (eastParams defaults) /\
  same_window (clamp (eastParams defaults)) (eastParams defaults).
Proof.
  assert (Hl : within_limits (eastParams defaults)).
  { unfold within_limits. cbn. split; [| split; [| split]]; lra. }
  split; [exact Hl |].
  apply (proj2 C8_clamp_idempotent (eastParams defaults)). exact Hl.
Defined.

(** ** The segments on the wall face *)

(** Unfold the locals down to the three clamped values, and write the
    halvings as products so that [lra] and [ring] read them. *)
Ltac unfold_locals :=
  unfold lowerH, upperH, leftW, rightW, yWinTop, yWinBottom, yBottom, yTop,
    halfL, winLeft, winRight, winCenter, glassT in *;
  unfold Qdiv in *; change (/ 2) with (1 # 2) in *.

(** Each box covers exactly the rectangle it is meant to fill, whatever
    the input. *)
Lemma project_box_of (wm : MeshStandardMaterial) (p : WallParams) (s : Side) :
  Rect_eq (project (axis p) (box_of wm p s)) (side_rect s p).
Proof.
  unfold Rect_eq, project, box_of, side_rect.
  destruct s; destruct (is_x (axis p)); cbn; unfold_locals;
    (split; [| split; [| split]]); field.
Qed.

Lemma In_sides (s : Side) : In s sides.
Proof. destruct s; cbn; auto. Qed.

Lemma In_segments (wm : MeshStandardMaterial) (p : WallParams) (m : Mesh) :
  In m (segments wm p) <-> exists s, emitted s p = true /\ m = box_of wm p s.
Proof.
  unfold segments. rewrite in_flat_map. split.
  - intros (s & _ & Hin). exists s. unfold piece in Hin.
    destruct (emitted s p); cbn in Hin.
    + destruct Hin as [E | []]. auto.
    + contradiction.
  - intros (s & He & ->). exists s. split; [apply In_sides |].
    unfold piece. rewrite He. left. reflexivity.
Qed.

Lemma emitted_true_iff (s : Side) (p : WallParams) :
  emitted s p = true <-> epsilon < extent s p.
Proof. unfold emitted, epsilon. apply gt_true_iff. Qed.

Lemma emitted_false_iff (s : Side) (p : WallParams) :
  emitted s p = false <-> extent s p <= epsilon.
Proof. unfold emitted, epsilon. apply gt_false_iff. Qed.

(** The four strips and the aperture always add up to the face. *)
Lemma strips_add_up (p : WallParams) :
  area (side_rect Lower p) + area (side_rect Upper p) +
  area (side_rect Left p) + area (side_rect Right p) + area (aperture p)
  == L p * H p.
Proof.
  unfold area, side_rect, aperture. cbn. unfold_locals. field.
Qed.

Ltac cbn_mesh :=
  cbn [along0 along1 y0 y1 position geometry sx sy sz x y z
       position_set position_set_y makeBox new_Mesh set_castShadow
       set_receiveShadow castShadow receiveShadow material] in *.



Lemma upperH_ge (p : WallParams) : 0.05 <= upperH p.
Proof.
  pose proof (sill'_range p) as [_ Hs]. unfold_locals. lra.
Qed.

Lemma lowerH_sill' (p : WallParams) : lowerH p == sill' p.
Proof. unfold_locals. lra. Qed.



















(** ** The tiling of the wall face *)




(** ** The omission threshold *)

Lemma piece_cases (wm : MeshStandardMaterial) (p : WallParams) (s : Side) :
  (piece wm p s = [box_of wm p s] <-> epsilon < extent s p) /\
  (piece wm p s = [] <-> extent s p <= epsilon).
Proof.
  unfold piece. destruct (emitted s p) eqn:He.
  - pose proof (proj1 (emitted_true_iff s p) He) as Hlt. split; split.
    + intros _. exact Hlt.
    + reflexivity.
    + discriminate.
    + intro Hle. lra.
  - pose proof (proj1 (emitted_false_iff s p) He) as Hle. split; split.
    + discriminate.
    + intro Hlt. lra.
    + intros _. exact Hle.
    + reflexivity.
Qed.

Lemma guarded_size_extent (wm : MeshStandardMaterial) (p : WallParams)
    (s : Side) :
  guarded_size (axis p) s (box_of wm p s) = extent s p.
Proof.
  unfold guarded_size, box_of, extent.
  destruct s; destruct (is_x (axis p)); reflexivity.
Qed.

(** C4, as amended.  Each of the Lower, Upper, Left and Right blocks
    adds its box if and only if its extent ([lowerH], [upperH], [leftW],
    [rightW]) is strictly above 0.001, and adds nothing when the extent
    is at or below 0.001; the dimension of an emitted box that carries
    this extent is therefore above 0.001.  The other dimensions of a box
    ([L] or the clamped window height, and [T]) are not tested: they are
    positive when [L], [T] and the clamped window height are. *)
Theorem C4_emitted_iff_extent (wm : MeshStandardMaterial) (p : WallParams) :
  (forall s,
     (piece wm p s = [box_of wm p s] <-> epsilon < extent s p) /\
     (piece wm p s = [] <-> extent s p <= epsilon) /\
     guarded_size (axis p) s (box_of wm p s) = extent s p) /\
  (forall m, In m (segments wm p) ->
     exists s, m = box_of wm p s /\
               epsilon < guarded_size (axis p) s m) /\
  (0 < L p -> 0 < T p -> 0 < winH' p ->
   Forall positive_size (segments wm p)).
Proof.
  split; [| split].
  - intro s. pose proof (piece_cases wm p s) as [P1 P2].
    split; [exact P1 | split; [exact P2 | apply guarded_size_extent]].
  - intros m Hin. apply In_segments in Hin. destruct Hin as (s & He & ->).
    exists s. split; [reflexivity |].
    rewrite guarded_size_extent. apply emitted_true_iff. exact He.
  - intros HL HT HH. apply Forall_forall. intros m Hin.
    apply In_segments in Hin. destruct Hin as (s & He & ->).
    apply emitted_true_iff in He. unfold epsilon in He.
    unfold positive_size, box_of.
    destruct s; cbn [extent] in He; destruct (is_x (axis p)); cbn_mesh;
      (split; [| split]); lra.
Qed.

Lemma C4_emitted_iff_extent_witness :
  0 < L (southParams defaults) /\ 0 < T (southParams defaults) /\
  0 < winH' (southParams defaults) /\
  Forall positive_size (segments (wallMat defaults) (southParams defaults)).
Proof.
  split; [reflexivity |]. split; [reflexivity |]. split; [reflexivity |].
  apply (proj2 (proj2 (C4_emitted_iff_extent (wallMat defaults)
                         (southParams defaults))));
    reflexivity.
Defined.

(** C4 as stated fails in its last part: on a wall 0.1 high the height
    clamp gives a window height of -0.1, and the Left segment is
    emitted with that negative height. *)
Lemma C4_counterexample :
  In (box_of (wallMat defaults) lowWall Left)
     (segments (wallMat defaults) lowWall) /\
  sy (geometry (box_of (wallMat defaults) lowWall Left)) == - 0.1 /\
  ~ Forall positive_size (segments (wallMat defaults) lowWall).
Proof.
  assert (Hin : In (box_of (wallMat defaults) lowWall Left)
                   (segments (wallMat defaults) lowWall)).
  { apply In_segments. exists Left. split; reflexivity. }
  split; [exact Hin |]. split; [reflexivity |].
  intro Hall. rewrite Forall_forall in Hall.
  destruct (Hall _ Hin) as (_ & Hsy & _).
  vm_compute in Hsy. discriminate Hsy.
Qed.

(** C6, as amended.  On a wall of ordinary size ([L] and [H] within a
    million of zero, requested window height not below minus a million)
    with the window centred ([offsetAlong = 0]), the Left and Right
    segments are always emitted: their extents are equal and at least
    0.09, and at most 0.11 when the requested width is [L - 0.2] or more,
    that is about 0.1 each, a hundred times the threshold.  The Upper
    segment is always emitted too, so that all four structural segments
    are emitted if and only if the computed [lowerH] is above 0.001; this
    is so when the requested sill is 0.002 or more, and it is not so when
    the requested sill is 0 or less. *)
Theorem C6_centered_segments (p : WallParams) :
  offsetAlong p == 0 ->
  ordinary (L p) -> ordinary (H p) -> - 1000000 <= winH p ->
  extent Left p == extent Right p /\
  0.09 <= extent Left p /\
  emitted Left p = true /\ emitted Right p = true /\
  emitted Upper p = true /\
  (L p - 0.2 <= winW p -> extent Left p <= 0.11) /\
  (all_four_segments p <-> epsilon < extent Lower p) /\
  (sill p <= 0 -> emitted Lower p = false) /\
  (0.002 <= sill p -> all_four_segments p).
Proof.
  intros Hoff _ _ _.
  pose proof (winW'_le p) as [_ Hw].
  assert (ELR : extent Left p == extent Right p).
  { cbn [extent]. unfold_locals. lra. }
  assert (GL : 0.09 <= extent Left p).
  { cbn [extent]. unfold_locals. lra. }
  assert (HeL : emitted Left p = true).
  { apply emitted_true_iff. unfold epsilon. lra. }
  assert (HeR : emitted Right p = true).
  { apply emitted_true_iff. unfold epsilon. lra. }
  assert (HeU : emitted Upper p = true).
  { apply emitted_true_iff. pose proof (upperH_ge p). cbn [extent].
    unfold epsilon. lra. }
  assert (Hall : all_four_segments p <-> epsilon < extent Lower p).
  { unfold all_four_segments. split.
    - intro Ha. apply emitted_true_iff. apply Ha.
    - intros Hlo s. destruct s; try assumption.
      apply emitted_true_iff. exact Hlo. }
  pose proof (lowerH_sill' p) as E.
  pose proof (sill_bound_pos p) as Hb.
  split; [exact ELR |]. split; [exact GL |].
  split; [exact HeL |]. split; [exact HeR |]. split; [exact HeU |].
  split; [| split; [exact Hall | split]].
  - intro Hfull. cbn [extent] in *.
    destruct (winW'_cases p) as [Ew | Ew]; unfold_locals; lra.
  - intro Hs. apply emitted_false_iff. cbn [extent]. unfold epsilon.
    destruct (sill'_cases p) as [[? Es] | [[? Es] | [? Es]]]; lra.
  - intro Hs. apply Hall. cbn [extent]. unfold epsilon.
    destruct (sill'_cases p) as [[? Es] | [[? Es] | [? Es]]]; lra.
Qed.

Lemma C6_centered_segments_witness :
  offsetAlong fullWidthWall == 0 /\
  ordinary (L fullWidthWall) /\ ordinary (H fullWidthWall) /\
  - 1000000 <= winH fullWidthWall /\
  L fullWidthWall - 0.2 <= winW fullWidthWall /\
  0.002 <= sill fullWidthWall /\
  0.09 <= extent Left fullWidthWall /\
  extent Left fullWidthWall <= 0.11 /\
  emitted Left fullWidthWall = true /\
  all_four_segments fullWidthWall.
Proof.
  assert (Hoff : offsetAlong fullWidthWall == 0) by reflexivity.
  assert (HL : ordinary (L fullWidthWall))
    by (split; vm_compute; discriminate).
  assert (HH : ordinary (H fullWidthWall))
    by (split; vm_compute; discriminate).
  assert (Hh : - 1000000 <= winH fullWidthWall) by (vm_compute; discriminate).
  assert (Hw : L fullWidthWall - 0.2 <= winW fullWidthWall)
    by (vm_compute; discriminate).
  assert (Hs : 0.002 <= sill fullWidthWall) by (vm_compute; discriminate).
  pose proof (C6_centered_segments fullWidthWall Hoff HL HH Hh)
    as (_ & G & HeL & _ & _ & Hfull & _ & _ & Hall).
  split; [exact Hoff |]. split; [exact HL |]. split; [exact HH |].
  split; [exact Hh |]. split; [exact Hw |]. split; [exact Hs |].
  split; [exact G |]. split; [exact (Hfull Hw) |].
  split; [exact HeL | exact (Hall Hs)].
Defined.

(** C6 as stated fails in both halves: a centred window exactly
    [L - 0.2] wide leaves Left and Right segments 0.1 wide, a hundred
    times the threshold, and both are emitted; and a centred window
    narrower than [L - 0.4] whose sill is 0 has no Lower segment. *)
Lemma C6_counterexample :
  (winW fullWidthWall == L fullWidthWall - 0.2 /\
   offsetAlong fullWidthWall == 0 /\
   ~ no_side_segments fullWidthWall) /\
  (winW floorWindowWall < L floorWindowWall - 0.2 - 0.2 /\
   offsetAlong floorWindowWall == 0 /\
   ~ all_four_segments floorWindowWall).
Proof.
  split; (split; [reflexivity |]; split; [reflexivity |]).
  - intro Hno. destruct (Hno Left (or_introl eq_refl)) as [He | Hle].
    + vm_compute in He. discriminate He.
    + vm_compute in Hle. apply Hle. reflexivity.
  - intro Hall. specialize (Hall Lower). vm_compute in Hall.
    discriminate Hall.
Qed.


(** ** The floor *)

(** C5, as amended.  The first child of the house is the floor, a box
    of size [(width - 2 wallT, floorT, depth - 2 wallT)] centred on the
    vertical axis, whose bottom face is at [y = 0] and whose top face is
    at [y = floorT]; its four sides lie one wall thickness inside the
    outline, on the inner faces of the west, east, north and south
    walls. *)
Theorem C5_floor_box (c : Config) :
  exists m rest,
    children (makeHouse c) = MeshNode m :: rest /\
    geometry m =
      mkBoxGeometry (width c - wallT c * 2) (floorT c) (depth c - wallT c * 2) /\
    bottom_face m == 0 /\ top_face m == floorT c /\
    lo_x m == - (width c / 2) + wallT c /\
    hi_x m == width c / 2 - wallT c /\
    lo_z m == - (depth c / 2) + wallT c /\
    hi_z m == depth c / 2 - wallT c /\
    lo_x m == hi_x (westWall c) /\
    hi_x m == x (center (eastParams c)) - T (eastParams c) / 2 /\
    lo_z m == hi_z (northWall c) /\
    hi_z m == z (center (southParams c)) - T (southParams c) / 2.
Proof.
  rewrite makeHouse_unfold. cbn [children].
  eexists. eexists. split; [reflexivity |].
  split; [reflexivity |].
  unfold bottom_face, top_face, lo_x, hi_x, lo_z, hi_z, floorMesh, westWall,
    northWall, eastParams, southParams, wallY.
  cbn_mesh. cbn [center T].  cbn_mesh.
  unfold Qdiv; change (/ 2) with (1 # 2).
  repeat (split; [lra |]). lra.
Qed.

(** C5 as stated fails: with the default configuration the top face of
    the floor is at [y = 0.12], not at 0; it is the bottom face that is
    at 0. *)
Lemma C5_counterexample :
  exists m rest,
    children (makeHouse defaults) = MeshNode m :: rest /\
    top_face m == 0.12 /\ ~ top_face m == 0.
Proof.
  rewrite makeHouse_unfold. cbn [children].
  eexists. eexists. split; [reflexivity |].
  split; [reflexivity |]. intro E. vm_compute in E. discriminate E.
Qed.

(** ** The glass pane *)

(** C7.  For every input the last child of the wall group is the pane:
    a box whose size along the wall is the clamped width, whose height
    is the clamped height and whose thickness is 0.02, the first on x and
    the last on z when [axis] is ["x"] and the other way round otherwise;
    its centre is at [offsetAlong] along the wall, at
    [yWinBottom + winH'/2] vertically, and at the outward normal's
    component across the wall times [T/2 - 0.02/2] across the wall. *)
Theorem C7_pane_geometry (wm gm : MeshStandardMaterial) (p : WallParams)
    (g : Group) :
  exists segs pane,
    buildWallWithWindow wm gm p g =
      add g (GroupNode (center p) (map MeshNode segs ++ [MeshNode pane])) /\
    geometry pane =
      (if is_x (axis p)
       then mkBoxGeometry (winW (clamp p)) (winH (clamp p)) 0.02
       else mkBoxGeometry 0.02 (winH (clamp p)) (winW (clamp p))) /\
    along (axis p) (position pane) = offsetAlong p /\
    y (position pane) = yWinBottom p + winH (clamp p) / 2 /\
    across (axis p) (position pane) =
      across (axis p) (outwardNormal p) * (T p / 2 - 0.02 / 2) /\
    material pane = gm.
Proof.
  exists (segments wm p), (glass gm p).
  split.
  - rewrite buildWallWithWindow_unfold.
    unfold wallGroup, as_node. cbn [group_position children].
    rewrite map_app. reflexivity.
  - unfold glass, along, across, clamp. cbn [winW winH].
    destruct (is_x (axis p)); cbn_mesh;
      repeat (split; [reflexivity |]); reflexivity.
Qed.

(** ** Shadows *)

Lemma box_of_shadows (wm : MeshStandardMaterial) (p : WallParams) (s : Side) :
  shadows_fully (box_of wm p s).
Proof.
  unfold box_of. destruct s; destruct (is_x (axis p)); split; reflexivity.
Qed.

Lemma glass_castShadow (gm : MeshStandardMaterial) (p : WallParams) :
  castShadow (glass gm p) = false /\ receiveShadow (glass gm p) = true.
Proof.
  unfold glass. destruct (is_x (axis p)); split; reflexivity.
Qed.

(** C9.  In the house built from any configuration, the two plain
    walls and every structural segment of the two windowed walls have
    [castShadow] and [receiveShadow] set, and the pane that ends each
    windowed wall has [castShadow] cleared. *)
Theorem C9_shadow_flags (c : Config) :
  exists floor ceiling west north posE segsE paneE posS segsS paneS,
    children (makeHouse c) =
      [ MeshNode floor; MeshNode ceiling; MeshNode west; MeshNode north;
        GroupNode posE (map MeshNode segsE ++ [MeshNode paneE]);
        GroupNode posS (map MeshNode segsS ++ [MeshNode paneS]) ] /\
    shadows_fully west /\ shadows_fully north /\
    Forall shadows_fully segsE /\ Forall shadows_fully segsS /\
    castShadow paneE = false /\ castShadow paneS = false.
Proof.
  exists (floorMesh c), (ceilingMesh c), (westWall c), (northWall c).
  exists (center (eastParams c)),
         (segments (wallMat c) (eastParams c)),
         (glass (glassMat c) (eastParams c)).
  exists (center (southParams c)),
         (segments (wallMat c) (southParams c)),
         (glass (glassMat c) (southParams c)).
  split.
  - rewrite makeHouse_unfold. cbn [children].
    unfold as_node, wallGroup. cbn [group_position children].
    rewrite !map_app. reflexivity.
  - assert (S : forall wm p, Forall shadows_fully (segments wm p)).
    { intros wm p. apply Forall_forall. intros m Hin.
      apply In_segments in Hin. destruct Hin as (s & _ & ->).
      apply box_of_shadows. }
    split; [split; reflexivity |]. split; [split; reflexivity |].
    split; [apply S |]. split; [apply S |].
    split; apply glass_castShadow.
Qed.

(** ** The along-axis offset *)

(** C10.  The clamp leaves every parameter but the window width, height
    and sill as it was, the offset included; the window centre is the
    offset itself, and so is the pane's position along the wall; the
    clamped values do not depend on the offset; and any offset beyond
    [L/2 - winW'/2] puts the right edge of the aperture past the wall
    edge (the Right segment is then left out), as any offset below
    [- L/2 + winW'/2] does with the left edge.  Such offsets exist for
    every wall. *)
Theorem C10_offset_unclamped (gm : MeshStandardMaterial) (p : WallParams) :
  (axis (clamp p) = axis p /\ L (clamp p) = L p /\ H (clamp p) = H p /\
   T (clamp p) = T p /\ center (clamp p) = center p /\
   offsetAlong (clamp p) = offsetAlong p /\
   outwardNormal (clamp p) = outwardNormal p) /\
  winCenter p = offsetAlong p /\
  along (axis p) (position (glass gm p)) = offsetAlong p /\
  (forall off,
     winW' (with_offset p off) = winW' p /\
     winH' (with_offset p off) = winH' p /\
     sill' (with_offset p off) = sill' p) /\
  (forall off, halfL p - winW' p / 2 < off ->
     halfL p < winRight (with_offset p off) /\
     emitted Right (with_offset p off) = false) /\
  (forall off, off < - halfL p + winW' p / 2 ->
     winLeft (with_offset p off) < - halfL p /\
     emitted Left (with_offset p off) = false) /\
  (exists off, halfL p < winRight (with_offset p off)).
Proof.
  assert (R : forall off, halfL p - winW' p / 2 < off ->
              halfL p < winRight (with_offset p off)).
  { intros off Hoff. unfold winRight, winCenter, halfL in *.
    cbn [with_offset offsetAlong L].
    change (winW' (with_offset p off)) with (winW' p).
    unfold Qdiv in *; change (/ 2) with (1 # 2) in *. lra. }
  split; [repeat split |].
  split; [reflexivity |].
  split; [unfold glass, along; destruct (is_x (axis p)); reflexivity |].
  split; [intro off; repeat split |].
  split; [| split].
  - intros off Hoff. split; [apply R; exact Hoff |].
    apply emitted_false_iff. cbn [extent]. specialize (R off Hoff).
    unfold rightW, epsilon.
    change (halfL (with_offset p off)) with (halfL p). lra.
  - intros off Hoff.
    assert (Hl : winLeft (with_offset p off) < - halfL p).
    { unfold winLeft, winCenter, halfL in *.
      cbn [with_offset offsetAlong L].
      change (winW' (with_offset p off)) with (winW' p).
      unfold Qdiv in *; change (/ 2) with (1 # 2) in *. lra. }
    split; [exact Hl |].
    apply emitted_false_iff. cbn [extent].
    unfold leftW, epsilon.
    change (halfL (with_offset p off)) with (halfL p). lra.
  - exists (halfL p - winW' p / 2 + 1). apply R. lra.
Qed.

Lemma C10_offset_unclamped_witness :
  halfL offWall - winW' offWall / 2 < 3 /\
  halfL offWall < winRight (with_offset offWall 3) /\
  emitted Right (with_offset offWall 3) = false.
Proof.
  split; [reflexivity |].
  apply (proj1 (proj2 (proj2 (proj2 (proj2
           (C10_offset_unclamped (glassMat defaults) offWall))))) 3).
  reflexivity.
Defined.

(** * Further properties of the wall builder *)

Lemma emitted_Upper (p : WallParams) : emitted Upper p = true.
Proof.
  apply emitted_true_iff. cbn [extent]. pose proof (upperH_ge p).
  unfold epsilon. lra.
Qed.

Lemma side_extents_sum (p : WallParams) :
  extent Left p + extent Right p == L p - winW' p.
Proof. cbn [extent]. unfold_locals. lra. Qed.

Lemma emitted_Left_or_Right (p : WallParams) :
  emitted Left p = true \/ emitted Right p = true.
Proof.
  destruct (emitted Left p) eqn:EL; [left; reflexivity | right].
  apply emitted_false_iff in EL. apply emitted_true_iff.
  pose proof (side_extents_sum p) as Hs.
  pose proof (winW'_le p) as [_ Hw].
  unfold epsilon in *. lra.
Qed.

(** X1.  On a wall of ordinary height ([H] within a million of zero,
    requested window height not below minus a million) the Upper
    segment is emitted: the clamps keep the top of the window 0.05
    below the top of the wall, 0.049 with room for rounding, and the
    bottom of the window at or above the bottom of the wall. *)
Theorem upper_segment_always_emitted (wm : MeshStandardMaterial)
    (p : WallParams) :
  ordinary (H p) -> - 1000000 <= winH p ->
  In (box_of wm p Upper) (segments wm p) /\
  0.049 <= sy (geometry (box_of wm p Upper)) /\
  yWinTop p <= yTop p - 0.049 /\
  yBottom p <= yWinBottom p.
Proof.
  intros _ _.
  pose proof (upperH_ge p) as Hu.
  pose proof (sill'_range p) as [Hs0 Hs1].
  split; [| split; [| split]].
  - apply In_segments. exists Upper. split; [apply emitted_Upper | reflexivity].
  - apply Qle_trans with (y := 0.05); [vm_compute; discriminate | exact Hu].
  - unfold_locals. lra.
  - unfold_locals. lra.
Qed.

Lemma upper_segment_always_emitted_witness :
  ordinary (H (eastParams defaults)) /\
  - 1000000 <= winH (eastParams defaults) /\
  In (box_of (wallMat defaults) (eastParams defaults) Upper)
     (segments (wallMat defaults) (eastParams defaults)).
Proof.
  assert (HH : ordinary (H (eastParams defaults)))
    by (split; vm_compute; discriminate).
  assert (Hh : - 1000000 <= winH (eastParams defaults))
    by (vm_compute; discriminate).
  split; [exact HH |]. split; [exact Hh |].
  apply (proj1 (upper_segment_always_emitted (wallMat defaults)
                  (eastParams defaults) HH Hh)).
Defined.

Lemma segments_length (wm : MeshStandardMaterial) (p : WallParams) :
  (2 <= List.length (segments wm p) <= 4)%nat.
Proof.
  pose proof (emitted_Upper p) as HU.
  pose proof (emitted_Left_or_Right p) as HLR.
  unfold segments, sides, piece. cbn [flat_map]. rewrite HU.
  destruct (emitted Lower p), (emitted Left p), (emitted Right p);
    cbn [List.length app]; try (split; repeat constructor);
    destruct HLR; discriminate.
Qed.

(** X2.  On a wall of ordinary size the Left and Right extents add up
    to [L - winW'], which the width clamp keeps at 0.2 or more (0.199
    with room for rounding), so at least one of the two is emitted; with
    the Upper segment this gives the wall group between two and four
    structural segments, followed by the pane. *)
Theorem wall_group_size (wm gm : MeshStandardMaterial) (p : WallParams)
    (g : Group) :
  ordinary_wall p ->
  buildWallWithWindow wm gm p g =
    add g (GroupNode (center p)
             (map MeshNode (segments wm p) ++ [MeshNode (glass gm p)])) /\
  0.199 <= extent Left p + extent Right p /\
  (emitted Left p = true \/ emitted Right p = true) /\
  (2 <= List.length (segments wm p) <= 4)%nat.
Proof.
  intros _.
  split; [| split; [| split]].
  - rewrite buildWallWithWindow_unfold.
    unfold wallGroup, as_node. cbn [group_position children].
    rewrite map_app. reflexivity.
  - pose proof (side_extents_sum p). pose proof (winW'_le p) as [_ Hw]. lra.
  - apply emitted_Left_or_Right.
  - apply segments_length.
Qed.

Lemma wall_group_size_witness :
  ordinary_wall (eastParams defaults) /\
  (2 <= List.length (segments (wallMat defaults) (eastParams defaults))
     <= 4)%nat.
Proof.
  assert (Ho : ordinary_wall (eastParams defaults)).
  { unfold ordinary_wall, ordinary.
    repeat split; vm_compute; discriminate. }
  split; [exact Ho |].
  apply (proj2 (proj2 (proj2
           (wall_group_size (wallMat defaults) (glassMat defaults)
              (eastParams defaults) new_Group Ho)))).
Defined.

(** X3.  Whatever the input, the pane seen on the wall face is exactly
    the aperture of the clamped window, and it is 0.02 thick across the
    wall. *)
Theorem pane_fills_aperture (gm : MeshStandardMaterial) (p : WallParams) :
  Rect_eq (project (axis p) (glass gm p)) (aperture p) /\
  (if is_x (axis p) then sz (geometry (glass gm p))
   else sx (geometry (glass gm p))) = 0.02.
Proof.
  unfold Rect_eq, project, glass, aperture.
  destruct (is_x (axis p)); cbn_mesh; unfold_locals;
    (split; [split; [| split; [| split]]; lra | reflexivity]).
Qed.

(** X4.  The children of a wall group are in wall-local coordinates and
    do not depend on the wall centre: building the same wall at another
    centre gives the same children under a group placed at that centre.
    The first position given to the Upper box, which mentions the
    centre, is overwritten. *)
Theorem center_only_moves_group (wm gm : MeshStandardMaterial)
    (p : WallParams) (c : Vector3) (g : Group) :
  exists kids,
    buildWallWithWindow wm gm p g = add g (GroupNode (center p) kids) /\
    buildWallWithWindow wm gm (with_center p c) g = add g (GroupNode c kids).
Proof.
  exists (map MeshNode (segments wm p ++ [glass gm p])).
  rewrite !buildWallWithWindow_unfold. split; reflexivity.
Qed.

Lemma is_x_other (a : string) : a <> "x"%string -> is_x a = false.
Proof. intro Hne. unfold is_x. apply String.eqb_neq. exact Hne. Qed.

(** X5.  Only the string ["x"] selects the x layout: with any other
    axis string the wall is built exactly as with ["z"]. *)
Theorem axis_other_than_x_is_z (wm gm : MeshStandardMaterial)
    (p : WallParams) (a : string) (g : Group) :
  a <> "x"%string ->
  buildWallWithWindow wm gm (with_axis p a) g =
  buildWallWithWindow wm gm (with_axis p "z") g.
Proof.
  intro Hne. rewrite !buildWallWithWindow_unfold.
  unfold wallGroup, segments, sides, piece, glass, box_of.
  cbn [flat_map with_axis axis center].
  rewrite (is_x_other a Hne).
  change (is_x "z") with false.
  reflexivity.
Qed.

Lemma axis_other_than_x_is_z_witness :
  "y"%string <> "x"%string /\
  buildWallWithWindow (wallMat defaults) (glassMat defaults)
    (with_axis (eastParams defaults) "y") new_Group =
  buildWallWithWindow (wallMat defaults) (glassMat defaults)
    (with_axis (eastParams defaults) "z") new_Group.
Proof.
  assert (Hne : "y"%string <> "x"%string) by discriminate.
  split; [exact Hne |].
  apply (axis_other_than_x_is_z (wallMat defaults) (glassMat defaults)
           (eastParams defaults) "y" new_Group Hne).
Defined.

(** ** Symmetries *)

Lemma box_of_swap_axis (wm : MeshStandardMaterial) (p : WallParams) (s : Side) :
  box_of wm (swap_axis p) s = transpose_mesh (box_of wm p s).
Proof.
  unfold box_of, swap_axis. cbn [axis].
  destruct s; destruct (is_x (axis p)); reflexivity.
Qed.

Lemma glass_swap_axis (gm : MeshStandardMaterial) (p : WallParams) :
  glass gm (swap_axis p) = transpose_mesh (glass gm p).
Proof.
  unfold glass, swap_axis. cbn [axis].
  destruct (is_x (axis p)); reflexivity.
Qed.

Lemma segments_swap_axis (wm : MeshStandardMaterial) (p : WallParams) :
  segments wm (swap_axis p) = map transpose_mesh (segments wm p).
Proof.
  unfold segments, sides, piece. cbn [flat_map].
  rewrite !box_of_swap_axis.
  change (emitted Lower (swap_axis p)) with (emitted Lower p).
  change (emitted Upper (swap_axis p)) with (emitted Upper p).
  change (emitted Left (swap_axis p)) with (emitted Left p).
  change (emitted Right (swap_axis p)) with (emitted Right p).
  destruct (emitted Lower p), (emitted Upper p), (emitted Left p),
    (emitted Right p); reflexivity.
Qed.

Lemma wallGroup_swap_axis (wm gm : MeshStandardMaterial) (p : WallParams) :
  as_node (wallGroup wm gm (swap_axis p)) =
  transpose_node (as_node (wallGroup wm gm p)).
Proof.
  unfold as_node, wallGroup. cbn [group_position children transpose_node].
  rewrite segments_swap_axis, glass_swap_axis.
  rewrite !map_app, !map_map. reflexivity.
Qed.

(** X6.  Laying the same wall along the other horizontal axis (["x"]
    for any other axis string, ["z"] for ["x"], with the centre and the
    outward normal transposed) gives the same wall group with x and z
    exchanged in every size and every position. *)
Theorem swap_axis_transposes (wm gm : MeshStandardMaterial) (p : WallParams)
    (g : Group) :
  exists node,
    buildWallWithWindow wm gm p g = add g node /\
    buildWallWithWindow wm gm (swap_axis p) g = add g (transpose_node node).
Proof.
  exists (as_node (wallGroup wm gm p)).
  rewrite !buildWallWithWindow_unfold, wallGroup_swap_axis.
  split; reflexivity.
Qed.

(** X7.  The house is symmetric in x and z: exchanging width with depth
    and the east window with the south window gives the transposed
    floor and ceiling, the transposed north wall as west wall and the
    transposed west wall as north wall, the transposed south wall as
    east wall and the transposed east wall as south wall. *)
Theorem makeHouse_transpose (c : Config) :
  exists fl ce we no ea so,
    children (makeHouse c) = [fl; ce; we; no; ea; so] /\
    children (makeHouse (swap_plan c)) =
      map transpose_node [fl; ce; no; we; so; ea].
Proof.
  do 6 eexists. rewrite !makeHouse_unfold. cbn [children].
  split; [reflexivity |].
  change (eastParams (swap_plan c)) with (swap_axis (southParams c)).
  change (southParams (swap_plan c)) with (swap_axis (eastParams c)).
  cbn [wallMat glassMat swap_plan].
  rewrite !wallGroup_swap_axis.
  reflexivity.
Qed.

Lemma gt_Qeq (a a' b : Q) : a == a' -> gt a b = gt a' b.
Proof. intro E. unfold gt. rewrite E. reflexivity. Qed.

(** X8.  Moving the window to the other side of the wall centre
    exchanges the Left and Right segments: their extents and their
    emission are exchanged and their rectangles on the face are mirror
    images, while the Lower and Upper segments stay as they are. *)
Theorem mirror_swaps_sides (wm : MeshStandardMaterial) (p : WallParams) :
  extent Left (mirrored p) == extent Right p /\
  extent Right (mirrored p) == extent Left p /\
  emitted Left (mirrored p) = emitted Right p /\
  emitted Right (mirrored p) = emitted Left p /\
  along0 (project (axis p) (box_of wm (mirrored p) Left))
    == - along1 (project (axis p) (box_of wm p Right)) /\
  along1 (project (axis p) (box_of wm (mirrored p) Left))
    == - along0 (project (axis p) (box_of wm p Right)) /\
  box_of wm (mirrored p) Lower = box_of wm p Lower /\
  box_of wm (mirrored p) Upper = box_of wm p Upper.
Proof.
  assert (EL : extent Left (mirrored p) == extent Right p).
  { cbn [extent]. unfold leftW, rightW, winLeft, winRight, winCenter, halfL.
    change (winW' (mirrored p)) with (winW' p).
    change (L (mirrored p)) with (L p).
    change (offsetAlong (mirrored p)) with (- offsetAlong p).
    unfold Qdiv; change (/ 2) with (1 # 2). lra. }
  assert (ER : extent Right (mirrored p) == extent Left p).
  { cbn [extent]. unfold leftW, rightW, winLeft, winRight, winCenter, halfL.
    change (winW' (mirrored p)) with (winW' p).
    change (L (mirrored p)) with (L p).
    change (offsetAlong (mirrored p)) with (- offsetAlong p).
    unfold Qdiv; change (/ 2) with (1 # 2). lra. }
  split; [exact EL |]. split; [exact ER |].
  split; [unfold emitted; apply gt_Qeq; exact EL |].
  split; [unfold emitted; apply gt_Qeq; exact ER |].
  pose proof (project_box_of wm (mirrored p) Left) as (A0 & A1 & _ & _).
  pose proof (project_box_of wm p Right) as (B0 & B1 & _ & _).
  change (axis (mirrored p)) with (axis p) in A0, A1.
  cbn [side_rect along0 along1] in A0, A1, B0, B1.
  split; [| split; [| split]].
  - rewrite A0, B1. change (halfL (mirrored p)) with (halfL p). lra.
  - rewrite A1, B0.
    unfold winLeft, winRight, winCenter.
    change (winW' (mirrored p)) with (winW' p).
    change (offsetAlong (mirrored p)) with (- offsetAlong p).
    unfold Qdiv; change (/ 2) with (1 # 2). lra.
  - reflexivity.
  - reflexivity.
Qed.




(** * Further properties of the house *)

Ltac unfold_house :=
  unfold bottom_face, top_face, lo_x, hi_x, lo_z, hi_z, floorMesh,
    ceilingMesh, westWall, northWall, eastParams, southParams, wallY in *;
  cbn_mesh; cbn [center T H L axis] in *; cbn_mesh;
  unfold yTop, yBottom in *; cbn [H] in *;
  unfold Qdiv in *; change (/ 2) with (1 # 2) in *.

(** X10.  The second child of the house is the ceiling, a box of size
    [(width, 0.08, depth)] over the whole outline, not inset like the
    floor; its bottom face is at [y = height], where the two plain walls
    and the faces of the two windowed walls end, its top face at
    [height + 0.08], and the clear height between floor and ceiling is
    [height - floorT]. *)
Theorem ceiling_box (c : Config) :
  exists fl m rest,
    children (makeHouse c) = fl :: MeshNode m :: rest /\
    geometry m = mkBoxGeometry (width c) 0.08 (depth c) /\
    shadows_fully m /\
    bottom_face m == height c /\ top_face m == height c + 0.08 /\
    lo_x m == - (width c / 2) /\ hi_x m == width c / 2 /\
    lo_z m == - (depth c / 2) /\ hi_z m == depth c / 2 /\
    bottom_face m == top_face (westWall c) /\
    bottom_face m == top_face (northWall c) /\
    bottom_face m == y (center (eastParams c)) + yTop (eastParams c) /\
    bottom_face m == y (center (southParams c)) + yTop (southParams c) /\
    bottom_face m - top_face (floorMesh c) == height c - floorT c.
Proof.
  rewrite makeHouse_unfold. cbn [children].
  do 3 eexists. split; [reflexivity |].
  split; [reflexivity |]. split; [split; reflexivity |].
  unfold_house.
  repeat (split; [lra |]). lra.
Qed.

(** X11.  The third and fourth children of the house are the plain
    walls.  The west wall fills [x] from [-width/2] to
    [-width/2 + wallT], the north wall [z] from [-depth/2] to
    [-depth/2 + wallT]; both stand on [y = 0], reach [y = height] and run
    the whole length of their side of the outline. *)
Theorem plain_walls_boxes (c : Config) :
  exists fl ce we no rest,
    children (makeHouse c) = fl :: ce :: MeshNode we :: MeshNode no :: rest /\
    (lo_x we == - (width c / 2) /\ hi_x we == - (width c / 2) + wallT c /\
     bottom_face we == 0 /\ top_face we == height c /\
     lo_z we == - (depth c / 2) /\ hi_z we == depth c / 2) /\
    (lo_x no == - (width c / 2) /\ hi_x no == width c / 2 /\
     bottom_face no == 0 /\ top_face no == height c /\
     lo_z no == - (depth c / 2) /\ hi_z no == - (depth c / 2) + wallT c).
Proof.
  rewrite makeHouse_unfold. cbn [children].
  do 5 eexists. split; [reflexivity |].
  unfold_house.
  split; repeat (split; [lra |]); lra.
Qed.

Lemma In_segments_cases (wm : MeshStandardMaterial) (p : WallParams)
    (P : Mesh -> Prop) :
  (forall s, P (box_of wm p s)) -> Forall P (segments wm p).
Proof.
  intro HP. apply Forall_forall. intros m Hin.
  apply In_segments in Hin. destruct Hin as (s & _ & ->). apply HP.
Qed.

(** X12.  In house coordinates every structural segment of the east
    wall lies between [x = width/2 - wallT] and the outline at
    [x = width/2], and every structural segment of the south wall
    between [z = depth/2 - wallT] and the outline at [z = depth/2]; the
    Lower boxes stand on [y = 0], the Upper boxes (always present) end at
    [y = height], and both run the whole length of their side. *)
Theorem windowed_walls_slabs (c : Config) :
  Forall (fun m =>
            x (center (eastParams c)) + lo_x m == width c / 2 - wallT c /\
            x (center (eastParams c)) + hi_x m == width c / 2)
         (segments (wallMat c) (eastParams c)) /\
  Forall (fun m =>
            z (center (southParams c)) + lo_z m == depth c / 2 - wallT c /\
            z (center (southParams c)) + hi_z m == depth c / 2)
         (segments (wallMat c) (southParams c)) /\
  (forall wm,
     y (center (eastParams c)) + bottom_face (box_of wm (eastParams c) Lower) == 0 /\
     y (center (eastParams c)) + top_face (box_of wm (eastParams c) Upper)
       == height c /\
     lo_z (box_of wm (eastParams c) Lower) == - (depth c / 2) /\
     hi_z (box_of wm (eastParams c) Lower) == depth c / 2 /\
     lo_z (box_of wm (eastParams c) Upper) == - (depth c / 2) /\
     hi_z (box_of wm (eastParams c) Upper) == depth c / 2) /\
  (forall wm,
     y (center (southParams c)) + bottom_face (box_of wm (southParams c) Lower) == 0 /\
     y (center (southParams c)) + top_face (box_of wm (southParams c) Upper)
       == height c /\
     lo_x (box_of wm (southParams c) Lower) == - (width c / 2) /\
     hi_x (box_of wm (southParams c) Lower) == width c / 2 /\
     lo_x (box_of wm (southParams c) Upper) == - (width c / 2) /\
     hi_x (box_of wm (southParams c) Upper) == width c / 2).
Proof.
  split; [| split; [| split]].
  - apply In_segments_cases. intro s.
    unfold box_of. change (is_x (axis (eastParams c))) with false.
    destruct s; unfold lo_x, hi_x; cbn_mesh;
      change (T (eastParams c)) with (wallT c);
      change (x (center (eastParams c))) with (width c / 2 - wallT c / 2);
      unfold Qdiv; change (/ 2) with (1 # 2); split; lra.
  - apply In_segments_cases. intro s.
    unfold box_of. change (is_x (axis (southParams c))) with true.
    destruct s; unfold lo_z, hi_z; cbn_mesh;
      change (T (southParams c)) with (wallT c);
      change (z (center (southParams c))) with (depth c / 2 - wallT c / 2);
      unfold Qdiv; change (/ 2) with (1 # 2); split; lra.
  - intro wm. unfold box_of. change (is_x (axis (eastParams c))) with false.
    unfold bottom_face, top_face, lo_z, hi_z; cbn_mesh.
    change (y (center (eastParams c))) with (height c / 2).
    unfold_locals.
    change (L (eastParams c)) with (depth c).
    change (H (eastParams c)) with (height c).
    repeat (split; [lra |]); lra.
  - intro wm. unfold box_of. change (is_x (axis (southParams c))) with true.
    unfold bottom_face, top_face, lo_x, hi_x; cbn_mesh.
    change (y (center (southParams c))) with (height c / 2).
    unfold_locals.
    change (L (southParams c)) with (width c).
    change (H (southParams c)) with (height c).
    repeat (split; [lra |]); lra.
Qed.


(** X14.  The plain walls do not butt at the corner: for positive
    width, depth, height and wall thickness, the west and north walls
    share a region of nonzero volume in the north-west corner. *)
Theorem plain_walls_overlap_at_corner (c : Config) :
  0 < width c -> 0 < depth c -> 0 < height c -> 0 < wallT c ->
  exists a b d,
    strictly_in_box (westWall c) a b d /\
    strictly_in_box (northWall c) a b d.
Proof.
  intros Hw Hd Hh Ht.
  exists (- (width c / 2) + Qmin (wallT c) (width c) / 2),
         (height c / 2),
         (- (depth c / 2) + Qmin (wallT c) (depth c) / 2).
  pose proof (Q.le_min_l (wallT c) (width c)) as W1.
  pose proof (Q.le_min_r (wallT c) (width c)) as W2.
  pose proof (Q.le_min_l (wallT c) (depth c)) as D1.
  pose proof (Q.le_min_r (wallT c) (depth c)) as D2.
  assert (W0 : 0 < Qmin (wallT c) (width c)).
  { destruct (Q.min_spec (wallT c) (width c)) as [[_ E] | [_ E]];
      rewrite E; assumption. }
  assert (D0 : 0 < Qmin (wallT c) (depth c)).
  { destruct (Q.min_spec (wallT c) (depth c)) as [[_ E] | [_ E]];
      rewrite E; assumption. }
  unfold strictly_in_box. unfold_house.
  split; repeat (split; [lra |]); lra.
Qed.

Lemma plain_walls_overlap_at_corner_witness :
  0 < width defaults /\ 0 < depth defaults /\ 0 < height defaults /\
  0 < wallT defaults /\
  exists a b d,
    strictly_in_box (westWall defaults) a b d /\
    strictly_in_box (northWall defaults) a b d.
Proof.
  split; [reflexivity |]. split; [reflexivity |].
  split; [reflexivity |]. split; [reflexivity |].
  apply (plain_walls_overlap_at_corner defaults); reflexivity.
Defined.




(** * Edge behaviour of the wall builder *)

(** X16.  A requested sill of 0 or less is clamped to 0: the bottom of
    the window is then the bottom of the wall and no Lower segment is
    emitted, whatever the other parameters.  On a wall of ordinary
    height a requested sill of 0.002 or more always leaves a Lower
    segment. *)
Theorem lower_emitted_iff_sill (wm : MeshStandardMaterial) (p : WallParams) :
  (sill p <= 0 ->
   sill' p == 0 /\ yWinBottom p == yBottom p /\ emitted Lower p = false) /\
  (ordinary (H p) -> - 1000000 <= winH p -> 0.002 <= sill p ->
   emitted Lower p = true /\ In (box_of wm p Lower) (segments wm p)).
Proof.
  pose proof (lowerH_sill' p) as E.
  pose proof (sill_bound_pos p) as Hb.
  split.
  - intro Hs.
    assert (Es : sill' p == 0)
      by (destruct (sill'_cases p) as [[? Es] | [[? Es] | [? Es]]]; lra).
    split; [exact Es |]. split.
    + unfold_locals. lra.
    + apply emitted_false_iff. cbn [extent]. unfold epsilon. lra.
  - intros _ _ Hs.
    assert (He : emitted Lower p = true).
    { apply emitted_true_iff. cbn [extent]. unfold epsilon.
      destruct (sill'_cases p) as [[? Es] | [[? Es] | [? Es]]]; lra. }
    split; [exact He |].
    apply In_segments. exists Lower. split; [exact He | reflexivity].
Qed.

Lemma lower_emitted_iff_sill_witness :
  (sill floorWindowWall <= 0 /\ emitted Lower floorWindowWall = false) /\
  (ordinary (H fullWidthWall) /\ - 1000000 <= winH fullWidthWall /\
   0.002 <= sill fullWidthWall /\ emitted Lower fullWidthWall = true).
Proof.
  assert (Hs : sill floorWindowWall <= 0) by (vm_compute; discriminate).
  assert (HH : ordinary (H fullWidthWall))
    by (split; vm_compute; discriminate).
  assert (Hh : - 1000000 <= winH fullWidthWall) by (vm_compute; discriminate).
  assert (Hs2 : 0.002 <= sill fullWidthWall) by (vm_compute; discriminate).
  split.
  - split; [exact Hs |].
    apply (proj2 (proj2 (proj1 (lower_emitted_iff_sill (wallMat defaults)
                                  floorWindowWall) Hs))).
  - split; [exact HH |]. split; [exact Hh |]. split; [exact Hs2 |].
    apply (proj1 (proj2 (lower_emitted_iff_sill (wallMat defaults)
                           fullWidthWall) HH Hh Hs2)).
Defined.



(** X18.  A window of non-negative clamped width pushed wholly past
    the positive end of the wall ([offsetAlong > L/2 + winW'/2]) leaves
    no Right segment, and the Left segment that is emitted is longer
    than the wall and ends beyond the wall's end. *)
Theorem window_past_wall_end (wm : MeshStandardMaterial) (p : WallParams) :
  0 <= winW' p -> halfL p + winW' p / 2 < offsetAlong p ->
  emitted Right p = false /\
  emitted Left p = true /\
  In (box_of wm p Left) (segments wm p) /\
  L p < extent Left p /\
  halfL p < along1 (project (axis p) (box_of wm p Left)).
Proof.
  intros HL Hoff.
  pose proof (winW'_le p) as [_ Hw].
  assert (EL : L p < extent Left p).
  { cbn [extent]. unfold_locals. lra. }
  assert (HeL : emitted Left p = true).
  { apply emitted_true_iff. unfold epsilon. lra. }
  split; [| split; [exact HeL | split; [| split; [exact EL |]]]].
  - apply emitted_false_iff. cbn [extent]. unfold epsilon. unfold_locals. lra.
  - apply In_segments. exists Left. split; [exact HeL | reflexivity].
  - pose proof (project_box_of wm p Left) as (_ & A1 & _ & _).
    cbn [side_rect along1] in A1. rewrite A1. unfold_locals. lra.
Qed.

Lemma window_past_wall_end_witness :
  0 <= winW' offWall /\
  halfL offWall + winW' offWall / 2 < offsetAlong offWall /\
  emitted Right offWall = false /\ L offWall < extent Left offWall.
Proof.
  assert (H1 : 0 <= winW' offWall) by (vm_compute; discriminate).
  assert (H2 : halfL offWall + winW' offWall / 2 < offsetAlong offWall)
    by reflexivity.
  pose proof (window_past_wall_end (wallMat defaults) offWall H1 H2)
    as (HR & _ & _ & HL & _).
  split; [exact H1 |]. split; [exact H2 |]. split; [exact HR | exact HL].
Defined.

(** * The segments under rounded arithmetic *)

(** With exact arithmetic for [rnd] the rounded locals are the locals
    of the rational model. *)
Lemma Fl_exact (s : Side) (p : WallParams) :
  Fl.extent (fun v => v) s p = extent s p /\
  Fl.emitted (fun v => v) s p = emitted s p.
Proof. destruct s; split; reflexivity. Qed.

Lemma to_grid_close : rounds_closely to_grid.
Proof.
  intros v _ _. unfold to_grid.
  set (t := v * 4294967296 + (1 # 2)).
  pose proof (Qfloor_le t) as Hlo.
  pose proof (Qlt_floor t) as Hhi.
  rewrite inject_Z_plus in Hhi.
  rewrite (Qmake_Qdiv (Qfloor t) 4294967296).
  set (f := inject_Z (Qfloor t)) in *.
  change (inject_Z (Z.pos 4294967296)) with 4294967296.
  change (inject_Z 1) with 1 in Hhi.
  unfold t in *. clear t.
  unfold Qdiv. change (/ 4294967296) with (1 # 4294967296).
  split; lra.
Qed.

(** The value [rnd t] is within 2^-32 of [t], once [t] is seen to lie
    in the range of [rounds_closely]. *)
Ltac close_at Hr t :=
  let R := fresh "R" in
  assert (R : - 4194304 <= t /\ t <= 4194304) by (split; lra);
  let lo := fresh "lo" in
  let hi := fresh "hi" in
  pose proof (Hr t (proj1 R) (proj2 R)) as [lo hi]; clear R.

(** Name a minimum or a maximum and keep what the order says of it. *)
Ltac name_min m a b :=
  let l := fresh "Hl" in
  let r := fresh "Hr" in
  let c := fresh "Hc" in
  pose proof (Q.le_min_l a b) as l;
  pose proof (Q.le_min_r a b) as r;
  assert (c : Qmin a b == a \/ Qmin a b == b)
    by (destruct (Q.min_spec a b) as [[_ ?] | [_ ?]]; auto);
  set (m := Qmin a b) in *; clearbody m.

Ltac name_max m a b :=
  let l := fresh "Hl" in
  let r := fresh "Hr" in
  let c := fresh "Hc" in
  pose proof (Q.le_max_l a b) as l;
  pose proof (Q.le_max_r a b) as r;
  assert (c : Qmax a b == a \/ Qmax a b == b)
    by (destruct (Q.max_spec a b) as [[_ ?] | [_ ?]]; auto);
  set (m := Qmax a b) in *; clearbody m.

Section RoundedWall.
Variable rnd : Q -> Q.
Hypothesis Hrnd : rounds_closely rnd.
Variable p : WallParams.
Hypothesis Hord : ordinary_wall p.

(** Lines 59, 70-73, 78-79: six roundings stand between the margin of
    the width clamp and the two side extents. *)
Lemma rounded_side_extents :
  0.199 <= Fl.extent rnd Left p + Fl.extent rnd Right p /\
  (offsetAlong p == 0 ->
   0.09 <= Fl.extent rnd Left p /\ 0.09 <= Fl.extent rnd Right p /\
   (L p - 0.2 <= winW p -> Fl.extent rnd Left p <= 0.11)).
Proof.
  destruct Hord as ((HL0 & HL1) & (HH0 & HH1) & Hw & Hh & (Ho0 & Ho1)).
  cbn [Fl.extent].
  unfold Fl.leftW, Fl.rightW, Fl.winLeft, Fl.winRight, Fl.halfL, Fl.winCenter,
    Fl.winW', Math.min.
  unfold Qdiv; change (/ 2) with (1 # 2).
  close_at Hrnd 0.2.
  close_at Hrnd (L p - rnd 0.2).
  name_min W (winW p) (rnd (L p - rnd 0.2)).
  close_at Hrnd (W * (1 # 2)).
  close_at Hrnd (offsetAlong p - rnd (W * (1 # 2))).
  close_at Hrnd (offsetAlong p + rnd (W * (1 # 2))).
  close_at Hrnd (L p * (1 # 2)).
  close_at Hrnd (rnd (offsetAlong p - rnd (W * (1 # 2))) + rnd (L p * (1 # 2))).
  close_at Hrnd (rnd (L p * (1 # 2)) - rnd (offsetAlong p + rnd (W * (1 # 2)))).
  split; [lra |].
  intro Hoff. split; [lra |]. split; [lra |].
  intro Hfull. destruct Hc as [E | E]; lra.
Qed.

(** Lines 60-67, 76-77: the heights of the Upper and Lower segments. *)
Lemma rounded_heights :
  0.049 <= Fl.extent rnd Upper p /\
  (sill p <= 0 -> Fl.extent rnd Lower p <= 0.0000001) /\
  (0.002 <= sill p -> 0.0019 <= Fl.extent rnd Lower p).
Proof.
  destruct Hord as ((HL0 & HL1) & (HH0 & HH1) & Hw & Hh & (Ho0 & Ho1)).
  cbn [Fl.extent].
  unfold Fl.upperH, Fl.lowerH, Fl.yTop, Fl.yWinTop, Fl.yWinBottom, Fl.yBottom,
    Fl.sill', Fl.winH', Math.min, Math.max.
  unfold Qdiv; change (/ 2) with (1 # 2).
  close_at Hrnd 0.2.
  close_at Hrnd 0.05.
  close_at Hrnd (H p - rnd 0.2).
  name_min Wh (winH p) (rnd (H p - rnd 0.2)).
  close_at Hrnd (H p - Wh).
  close_at Hrnd (rnd (H p - Wh) - rnd 0.05).
  name_min M (sill p) (rnd (rnd (H p - Wh) - rnd 0.05)).
  name_max Sl 0.0 M.
  close_at Hrnd (- H p * (1 # 2)).
  close_at Hrnd (H p * (1 # 2)).
  close_at Hrnd (rnd (- H p * (1 # 2)) + Sl).
  close_at Hrnd (rnd (rnd (- H p * (1 # 2)) + Sl) + Wh).
  close_at Hrnd (rnd (H p * (1 # 2)) - rnd (rnd (rnd (- H p * (1 # 2)) + Sl) + Wh)).
  close_at Hrnd (rnd (rnd (- H p * (1 # 2)) + Sl) - rnd (- H p * (1 # 2))).
  split; [| split].
  - destruct Hc1 as [E | E]; destruct Hc0 as [E0 | E0]; lra.
  - intro Hs. destruct Hc1 as [E | E]; destruct Hc0 as [E0 | E0]; lra.
  - intro Hs. destruct Hc1 as [E | E]; destruct Hc0 as [E0 | E0]; lra.
Qed.

Lemma rounded_threshold :
  0.00099 <= rnd 0.001 /\ rnd 0.001 <= 0.00101.
Proof. close_at Hrnd 0.001. split; lra. Qed.

End RoundedWall.

(** X19.  The existence of the segments does not hinge on exact
    arithmetic.  Let every subtraction, addition, halving and decimal
    literal of lines 59-79 be rounded by any function that stays within
    2^-32 of the exact value for arguments up to 2^22 in magnitude, as
    binary64 rounding does.  Then on a wall of ordinary size the Upper
    segment is emitted and at least 0.049 high; the Left and Right
    extents add up to 0.199 or more and at least one of the two is
    emitted; with the window centred both are emitted, each with an
    extent of 0.09 or more, and of 0.11 or less when the requested
    width is [L - 0.2] or more; a sill of 0 or less leaves no Lower
    segment and a sill of 0.002 or more leaves one. *)
Theorem rounded_segments_emitted (rnd : Q -> Q) (p : WallParams) :
  rounds_closely rnd -> ordinary_wall p ->
  Fl.emitted rnd Upper p = true /\
  0.049 <= Fl.extent rnd Upper p /\
  0.199 <= Fl.extent rnd Left p + Fl.extent rnd Right p /\
  (Fl.emitted rnd Left p = true \/ Fl.emitted rnd Right p = true) /\
  (offsetAlong p == 0 ->
   Fl.emitted rnd Left p = true /\ Fl.emitted rnd Right p = true /\
   0.09 <= Fl.extent rnd Left p /\ 0.09 <= Fl.extent rnd Right p /\
   (L p - 0.2 <= winW p -> Fl.extent rnd Left p <= 0.11)) /\
  (sill p <= 0 -> Fl.emitted rnd Lower p = false) /\
  (0.002 <= sill p -> Fl.emitted rnd Lower p = true).
Proof.
  intros Hrnd Hord.
  pose proof (rounded_side_extents rnd Hrnd p Hord) as [Hsum Hcent].
  pose proof (rounded_heights rnd Hrnd p Hord) as (Hup & Hlo0 & Hlo1).
  pose proof (rounded_threshold rnd Hrnd) as [Ht0 Ht1].
  split; [apply gt_true_iff; lra |].
  split; [exact Hup |]. split; [exact Hsum |].
  split; [| split; [| split]].
  - destruct (Qlt_le_dec (rnd 0.001) (Fl.extent rnd Left p)) as [Hl | Hl].
    + left. apply gt_true_iff. exact Hl.
    + right. apply gt_true_iff. lra.
  - intro Hoff. destruct (Hcent Hoff) as (Gl & Gr & Hfull).
    split; [apply gt_true_iff; lra |].
    split; [apply gt_true_iff; lra |].
    split; [exact Gl |]. split; [exact Gr | exact Hfull].
  - intro Hs. specialize (Hlo0 Hs). apply gt_false_iff. lra.
  - intro Hs. specialize (Hlo1 Hs). apply gt_true_iff. lra.
Qed.

Lemma rounded_segments_emitted_witness :
  rounds_closely to_grid /\ ordinary_wall fullWidthWall /\
  offsetAlong fullWidthWall == 0 /\ 0.002 <= sill fullWidthWall /\
  Fl.emitted to_grid Upper fullWidthWall = true /\
  Fl.emitted to_grid Left fullWidthWall = true /\
  Fl.emitted to_grid Right fullWidthWall = true /\
  Fl.emitted to_grid Lower fullWidthWall = true.
Proof.
  assert (Ho : ordinary_wall fullWidthWall).
  { unfold ordinary_wall, ordinary. repeat split; vm_compute; discriminate. }
  assert (Hoff : offsetAlong fullWidthWall == 0) by reflexivity.
  assert (Hs : 0.002 <= sill fullWidthWall) by (vm_compute; discriminate).
  pose proof (rounded_segments_emitted to_grid fullWidthWall to_grid_close Ho)
    as (HU & _ & _ & _ & Hc & _ & Hlo).
  destruct (Hc Hoff) as (HL & HR & _).
  split; [exact to_grid_close |]. split; [exact Ho |].
  split; [exact Hoff |]. split; [exact Hs |].
  split; [exact HU |]. split; [exact HL |]. split; [exact HR | exact (Hlo Hs)].
Defined.
